(** * antSim.py: a shallow embedding of the ant colony simulation

    The simulation core of [antSim.py] (steering, movement, the worker
    state machine, the pheromone field and the per-frame update) is
    transcribed below as Rocq functions, class by class.

    Conventions of the embedding.
    - Python [float] values are modelled as real numbers ([R]): every
      arithmetic operation is exact.  Python [int] values are [Z].
      The properties stated over [R] are those that do not hang on the
      rounding of an operation; where rounding decides (the remainder
      modulo 360 in [steer], the end point of [random.uniform]), module
      [Binary64] evaluates the same expressions on doubles.
    - [pygame.Rect] is a record of four integers; storing a float into a
      rectangle coordinate rounds it to the nearest integer, as pygame
      does.
    - A [pygame.sprite.Group] is the list of its sprites in insertion
      order, which is the order in which pygame iterates over it;
      [kill()] removes the sprite from the list.  The group
      [all_sprites] is only drawn and is left out.
    - The random generator is an explicit stream of draws of
      [random.random()]; a function that draws returns the rest of the
      stream.
    - Surfaces, colours and drawing are left out: they never influence
      the simulation state. *)

From Stdlib Require Import Reals Lra Lia ZArith List Bool.
From Stdlib Require String.
From Stdlib Require Floats.
Import ListNotations.

Open Scope R_scope.

(* ================================================================== *)
(** * Numeric helpers: the [math] and [random] functions in use *)
(* ================================================================== *)

Module Num.

(** Python's [x % m] on floats, for a positive modulus, without
    rounding: [x - m * floor (x / m)], a value of [[0, m)].  On doubles
    the result can be [m] itself, see [Binary64.mod_360]. *)
Definition float_mod (x m : R) : R := x - m * IZR (Int_part (x / m)).

(** Conversion of a float to an integer coordinate, as done by pygame
    when a float is stored into a [Rect]: the nearest integer, a half
    going away from zero. *)
Definition round_away (r : R) : Z :=
  if Rle_dec 0 r then Int_part (r + / 2) else (- Int_part (- r + / 2))%Z.

(** Comparisons as booleans. *)
Definition Rltb (a b : R) : bool := if Rlt_dec a b then true else false.
Definition Rleb (a b : R) : bool := if Rle_dec a b then true else false.

(** [math.hypot]. *)
Definition hypot (dx dy : R) : R := sqrt (dx * dx + dy * dy).

(** [math.radians] and [math.degrees]. *)
Definition radians (d : R) : R := d * (PI / 180).
Definition degrees (r : R) : R := r * (180 / PI).

(** [math.atan2 dy dx], by the usual case analysis on the quadrant. *)
Definition atan2 (dy dx : R) : R :=
  if Rlt_dec 0 dx then atan (dy / dx)
  else if Rlt_dec dx 0 then
         (if Rle_dec 0 dy then atan (dy / dx) + PI else atan (dy / dx) - PI)
  else if Rlt_dec 0 dy then PI / 2
  else if Rlt_dec dy 0 then - (PI / 2)
  else 0.

(** The generator: an endless supply of draws of [random.random()]. *)
Definition Rng : Type := nat -> R.

Definition random (g : Rng) : R * Rng := (g 0%nat, fun n => g (S n)).

(** Every draw of [random.random()] lies in [[0, 1)]. *)
Definition fair (g : Rng) : Prop := forall n, 0 <= g n < 1.

(** [random.uniform(a, b)] is [a + (b - a) * random()], here without
    rounding.  On doubles the result can be [b] itself, see
    [Binary64.uniform]. *)
Definition uniform (a b : R) (g : Rng) : R * Rng :=
  let (u, g') := random g in (a + (b - a) * u, g').

(** [random.randint(a, b)]: an integer of [[a, b]], here the one selected
    by the next draw. *)
Definition randint (a b : Z) (g : Rng) : Z * Rng :=
  let (u, g') := random g in ((a + Int_part (u * IZR (b - a + 1)))%Z, g').

End Num.

Import Num.

(* ================================================================== *)
(** * Constants and simulation parameters *)
(* ================================================================== *)

Definition SCREEN_WIDTH : Z := 800.
Definition SCREEN_HEIGHT : Z := 600.

Definition ANT_SPEED : R := 1.5.
Definition ANT_TURN_SPEED : R := 5.

Definition PHEROMONE_STRENGTH : Z := 255.
Definition PHEROMONE_DROP_RATE : Z := 10.

(** The four parameters that size and populate the colony.  They are
    module-level constants of the script; the set-up code is written
    over a record of them so that other settings can be examined. *)
Record Config : Type := mkConfig {
  TOTAL_ANTS : Z;
  WORKER_RATIO : R;
  FOOD_PILES : Z;
  FOOD_AMOUNT_PER_PILE : Z
}.

(** The values in the script. *)
Definition script_config : Config := mkConfig 40 0.8 12 80.

Inductive AntState : Type :=
| STATE_SEEKING_FOOD
| STATE_RETURNING_TO_NEST
| STATE_WANDERING.

(* ================================================================== *)
(** * [pygame.Rect] and sprite collisions *)
(* ================================================================== *)

Record Rect : Type := mkRect {
  left : Z;
  top : Z;
  width : Z;
  height : Z
}.

(** [rect.centerx], [rect.centery] and [rect.center]. *)
Definition centerx (r : Rect) : Z := (left r + width r / 2)%Z.
Definition centery (r : Rect) : Z := (top r + height r / 2)%Z.
Definition center (r : Rect) : Z * Z := (centerx r, centery r).

(** [rect.center = (cx, cy)]: the size is kept. *)
Definition set_center (r : Rect) (c : Z * Z) : Rect :=
  mkRect (fst c - width r / 2)%Z (snd c - height r / 2)%Z (width r) (height r).

(** [pygame.Surface((w, h)).get_rect(center=(x, y))]. *)
Definition get_rect_center (w h : Z) (x y : R) : Rect :=
  set_center (mkRect 0 0 w h) (round_away x, round_away y).

(** [a.colliderect(b)], for rectangles of positive size. *)
Definition colliderect (a b : Rect) : bool :=
  (left a <? left b + width b)%Z && (top a <? top b + height b)%Z &&
  (left b <? left a + width a)%Z && (top b <? top a + height a)%Z.

(** [pygame.sprite.spritecollide(sprite, group, False)]: the sprites of
    the group whose rectangle overlaps the sprite's, in group order. *)
Definition spritecollide {S : Type} (rect_of : S -> Rect)
    (r : Rect) (group : list S) : list S :=
  filter (fun s => colliderect r (rect_of s)) group.

(** [get_angle_to(p1, p2)], called on rectangle centres. *)
Definition get_angle_to (p1 p2 : Z * Z) : R :=
  let dx := (fst p2 - fst p1)%Z in
  let dy := (snd p2 - snd p1)%Z in
  degrees (atan2 (IZR dy) (IZR dx)).

(* ================================================================== *)
(** * class Pheromone *)
(* ================================================================== *)

Module Pheromone.

Record t : Type := mk {
  rect : Rect;
  strength : Z
}.

(** [Pheromone(x, y)]. *)
Definition init (x y : R) : t :=
  mk (get_rect_center 3 3 x y) PHEROMONE_STRENGTH.

(** [Pheromone.update()]: [None] when the marker has killed itself. *)
Definition update (self : t) : option t :=
  let self := mk (rect self) (strength self - 1) in
  if (strength self <=? 0)%Z then None else Some self.

(** [pheromone_group.update()]: every marker is updated once; the killed
    ones leave the group. *)
Fixpoint group_update (group : list t) : list t :=
  match group with
  | [] => []
  | p :: rest =>
      match update p with
      | Some p' => p' :: group_update rest
      | None => group_update rest
      end
  end.

End Pheromone.

(* ================================================================== *)
(** * class Food *)
(* ================================================================== *)

Module Food.

Record t : Type := mk {
  rect : Rect;
  amount : Z
}.

(** [Food(x, y)], at integer coordinates. *)
Definition init (cfg : Config) (x y : Z) : t :=
  mk (get_rect_center 12 12 (IZR x) (IZR y)) (FOOD_AMOUNT_PER_PILE cfg).

(** [Food.take_chunk()]: [None] when the pile has killed itself. *)
Definition take_chunk (self : t) : option t :=
  let self := mk (rect self) (amount self - 1) in
  if (amount self <=? 0)%Z then None else Some self.

End Food.

(* ================================================================== *)
(** * class Obstacle *)
(* ================================================================== *)

Module Obstacle.

Record t : Type := mk {
  rect : Rect
}.

(** [Obstacle(x, y, width, height)]: the rectangle is placed by its top
    left corner. *)
Definition init (x y w h : Z) : t := mk (mkRect x y w h).

End Obstacle.

(* ================================================================== *)
(** * class Ant *)
(* ================================================================== *)

Module Ant.

Record t : Type := mk {
  rect : Rect;
  x : R;
  y : R;
  speed : R;
  direction : R;
  turn_speed : R
}.

Definition with_direction (self : t) (d : R) : t :=
  mk (rect self) (x self) (y self) (speed self) d (turn_speed self).

Definition with_x (self : t) (nx : R) : t :=
  mk (rect self) nx (y self) (speed self) (direction self) (turn_speed self).

Definition with_y (self : t) (ny : R) : t :=
  mk (rect self) (x self) ny (speed self) (direction self) (turn_speed self).

Definition with_rect (self : t) (r : Rect) : t :=
  mk r (x self) (y self) (speed self) (direction self) (turn_speed self).

(** [self.rect.center = (self.x, self.y)]. *)
Definition sync_rect (self : t) : t :=
  with_rect self (set_center (rect self) (round_away (x self), round_away (y self))).

(** [Ant.__init__(x, y, color)], called with integer coordinates. *)
Definition init (ix iy : Z) (g : Rng) : t * Rng :=
  let (d, g) := uniform 0 360 g in
  (mk (get_rect_center 5 5 (IZR ix) (IZR iy)) (IZR ix) (IZR iy)
      ANT_SPEED d ANT_TURN_SPEED, g).

(** [Ant.steer(target_angle)]. *)
Definition steer (self : t) (target_angle : R) : t :=
  let diff := float_mod (target_angle - direction self + 180) 360 - 180 in
  let self :=
    if Rlt_dec (Rabs diff) (turn_speed self) then
      with_direction self target_angle
    else if Rlt_dec 0 diff then
      with_direction self (direction self + turn_speed self)
    else
      with_direction self (direction self - turn_speed self) in
  with_direction self (float_mod (direction self) 360).

(** The wander rule shared by workers without a target and soldiers:
    [self.direction += random.uniform(-self.turn_speed, self.turn_speed)]. *)
Definition wander (self : t) (g : Rng) : t * Rng :=
  let (delta, g) := uniform (- turn_speed self) (turn_speed self) g in
  (with_direction self (direction self + delta), g).

(** First part of [Ant.move]: the new position along the heading. *)
Definition advance (self : t) : t :=
  let rad := radians (direction self) in
  let self := with_x self (x self + cos rad * speed self) in
  let self := with_y self (y self + sin rad * speed self) in
  sync_rect self.

(** Second part of [Ant.move]: "1. Screen Boundary Check (Bounce)". *)
Definition boundary_check (old_x old_y : R) (self : t) : t :=
  let self :=
    if Rleb (x self) 0 || Rleb (IZR SCREEN_WIDTH) (x self) then
      with_x (with_direction self (180 - direction self)) old_x
    else self in
  let self :=
    if Rleb (y self) 0 || Rleb (IZR SCREEN_HEIGHT) (y self) then
      with_y (with_direction self (- direction self)) old_y
    else self in
  sync_rect self.

(** Third part of [Ant.move]: "2. Obstacle Collision Check (Bounce)". *)
Definition obstacle_check (old_x old_y : R) (self : t)
    (obstacle_group : list Obstacle.t) (g : Rng) : t * Rng :=
  match spritecollide Obstacle.rect (rect self) obstacle_group with
  | [] => (self, g)
  | _ :: _ =>
      let self := with_y (with_x self old_x) old_y in
      let (delta, g) := uniform 90 270 g in
      let self := with_direction self (direction self + delta) in
      (sync_rect self, g)
  end.

(** [Ant.move(obstacle_group)]. *)
Definition move (self : t) (obstacle_group : list Obstacle.t) (g : Rng)
    : t * Rng :=
  let old_x := x self in
  let old_y := y self in
  let self := advance self in
  let self := boundary_check old_x old_y self in
  obstacle_check old_x old_y self obstacle_group g.

End Ant.

(* ================================================================== *)
(** * class WorkerAnt *)
(* ================================================================== *)

Module WorkerAnt.

Record t : Type := mk {
  base : Ant.t;
  nest_rect : Rect;
  state : AntState;
  pheromone_cooldown : Z
}.

Definition with_base (self : t) (b : Ant.t) : t :=
  mk b (nest_rect self) (state self) (pheromone_cooldown self).

Definition with_state (self : t) (s : AntState) : t :=
  mk (base self) (nest_rect self) s (pheromone_cooldown self).

Definition with_cooldown (self : t) (c : Z) : t :=
  mk (base self) (nest_rect self) (state self) c.

(** [WorkerAnt.__init__(x, y, nest_rect)]. *)
Definition init (ix iy : Z) (nest : Rect) (g : Rng) : t * Rng :=
  let (b, g) := Ant.init ix iy g in
  (mk b nest STATE_SEEKING_FOOD 0, g).

(** [WorkerAnt.drop_pheromone(pheromone_group, all_sprites)]. *)
Definition drop_pheromone (self : t) (pheromone_group : list Pheromone.t)
    : t * list Pheromone.t :=
  if (pheromone_cooldown self <=? 0)%Z then
    let p := Pheromone.init (Ant.x (base self)) (Ant.y (base self)) in
    (with_cooldown self PHEROMONE_DROP_RATE, pheromone_group ++ [p])
  else
    (with_cooldown self (pheromone_cooldown self - 1), pheromone_group).

(** Distance from the ant's position to the centre of a rectangle. *)
Definition dist_to (self : t) (r : Rect) : R :=
  hypot (IZR (centerx r) - Ant.x (base self))
        (IZR (centery r) - Ant.y (base self)).

(** The loop over [pheromone_group] in [update]: the first marker closer
    than 50 pixels ends the loop. *)
Fixpoint smell (self : t) (pheromone_group : list Pheromone.t)
    : option Pheromone.t :=
  match pheromone_group with
  | [] => None
  | p :: rest =>
      if Rlt_dec (dist_to self (Pheromone.rect p)) 50 then Some p
      else smell self rest
  end.

(** Python's [min(iterable, key=...)] on a non-empty sequence: the first
    element with the smallest key. *)
Fixpoint min_from {S : Type} (key : S -> R) (best : S) (l : list S) : S :=
  match l with
  | [] => best
  | s :: rest =>
      min_from key (if Rlt_dec (key s) (key best) then s else best) rest
  end.

(** Step 2 of the seeking branch: with no pheromone target and a
    non-empty food group, the closest food if it is closer than 100. *)
Definition see_food (self : t) (food_group : list Food.t)
    : option (Z * Z) :=
  match food_group with
  | [] => None
  | f :: rest =>
      let closest_food :=
        min_from (fun f => dist_to self (Food.rect f)) f rest in
      let dist := dist_to self (Food.rect closest_food) in
      if Rlt_dec dist 100 then Some (center (Food.rect closest_food))
      else None
  end.

(** Steps 1 and 2 of the seeking branch: the value of [target]. *)
Definition seek_target (self : t) (food_group : list Food.t)
    (pheromone_group : list Pheromone.t) : option (Z * Z) :=
  match smell self pheromone_group with
  | Some p => Some (center (Pheromone.rect p))
  | None => see_food self food_group
  end.

(** [collided_food[0].take_chunk()]: the first pile of the group that
    overlaps [r] loses a chunk, and leaves the group when it is spent. *)
Fixpoint take_first_chunk (r : Rect) (food_group : list Food.t)
    : list Food.t :=
  match food_group with
  | [] => []
  | f :: rest =>
      if colliderect r (Food.rect f) then
        match Food.take_chunk f with
        | Some f' => f' :: rest
        | None => rest
        end
      else f :: take_first_chunk r rest
  end.

(** Step 3 of the seeking branch: collision with food. *)
Definition collect (self : t) (food_group : list Food.t)
    : t * list Food.t :=
  match spritecollide Food.rect (Ant.rect (base self)) food_group with
  | [] => (self, food_group)
  | _ :: _ =>
      (with_state self STATE_RETURNING_TO_NEST,
       take_first_chunk (Ant.rect (base self)) food_group)
  end.

(** The test against the nest in the returning branch. *)
Definition arrive (self : t) : t :=
  if colliderect (Ant.rect (base self)) (nest_rect self) then
    let self := with_state self STATE_SEEKING_FOOD in
    with_base self
      (Ant.with_direction (base self) (Ant.direction (base self) + 180))
  else self.

(** The state-dependent first half of [update]: the target and the
    effects on the worker and on the two groups. *)
Definition decide (self : t) (food_group : list Food.t)
    (pheromone_group : list Pheromone.t)
    : option (Z * Z) * t * list Food.t * list Pheromone.t :=
  match state self with
  | STATE_SEEKING_FOOD =>
      let target := seek_target self food_group pheromone_group in
      let (self, food_group) := collect self food_group in
      (target, self, food_group, pheromone_group)
  | STATE_RETURNING_TO_NEST =>
      let target := Some (center (nest_rect self)) in
      let (self, pheromone_group) := drop_pheromone self pheromone_group in
      let self := arrive self in
      (target, self, food_group, pheromone_group)
  | STATE_WANDERING =>
      (None, self, food_group, pheromone_group)
  end.

(** "Movement Logic": steer to the target, or wander.  A target is a
    pair, which Python takes as true whatever its components. *)
Definition turn (self : t) (target : option (Z * Z)) (g : Rng) : t * Rng :=
  match target with
  | Some tg =>
      let target_angle := get_angle_to (center (Ant.rect (base self))) tg in
      (with_base self (Ant.steer (base self) target_angle), g)
  | None =>
      let (b, g) := Ant.wander (base self) g in
      (with_base self b, g)
  end.

(** [WorkerAnt.update(food_group, pheromone_group, obstacle_group,
    all_sprites)]. *)
Definition update (self : t) (food_group : list Food.t)
    (pheromone_group : list Pheromone.t) (obstacle_group : list Obstacle.t)
    (g : Rng) : t * list Food.t * list Pheromone.t * Rng :=
  let '(target, self, food_group, pheromone_group) :=
    decide self food_group pheromone_group in
  let (self, g) := turn self target g in
  let (b, g) := Ant.move (base self) obstacle_group g in
  (with_base self b, food_group, pheromone_group, g).

End WorkerAnt.

(* ================================================================== *)
(** * class SoldierAnt *)
(* ================================================================== *)

Module SoldierAnt.

Record t : Type := mk {
  base : Ant.t;
  state : AntState
}.

(** [SoldierAnt.__init__(x, y)]. *)
Definition init (ix iy : Z) (g : Rng) : t * Rng :=
  let (b, g) := Ant.init ix iy g in
  (mk b STATE_WANDERING, g).

(** [SoldierAnt.update(food_group, pheromone_group, obstacle_group,
    all_sprites)]. *)
Definition update (self : t) (obstacle_group : list Obstacle.t) (g : Rng)
    : t * Rng :=
  let (b, g) := Ant.wander (base self) g in
  let (b, g) := Ant.move b obstacle_group g in
  (mk b (state self), g).

End SoldierAnt.

(* ================================================================== *)
(** * The same arithmetic on binary64 *)
(* ================================================================== *)

(** Where rounding decides what the script computes, the expressions of
    [Ant.steer] and of [random.uniform] are also given on IEEE 754
    double precision numbers, the floats of Python, so that they can be
    evaluated. *)
Module Binary64.

Import Floats.

(** C's [fmod(x, 360.0)] for a finite [x]: the exact remainder of the
    division truncated toward zero, with the sign of [x]. *)
Definition fmod_360 (x : float) : float :=
  match Prim2SF x with
  | S754_finite s m e =>
      let r :=
        if (0 <=? e)%Z then ((Z.pos m * 2 ^ e) mod 360)%Z
        else (Z.pos m mod (360 * 2 ^ (- e)))%Z in
      let f := Z.ldexp (of_uint63 (Uint63.of_Z r)) (Z.min e 0) in
      if s then (- f)%float else f
  | S754_zero _ => x
  | _ => nan
  end.

(** Python's [x % 360] on floats: the remainder of [fmod], moved into
    the range of the modulus by one floating-point addition when it is
    negative. *)
Definition mod_360 (x : float) : float :=
  let m := fmod_360 x in
  if (m =? 0)%float then 0%float
  else if (m <? 0)%float then (m + 360)%float
  else m.

(** The heading computed by [Ant.steer], lines 140 to 150. *)
Definition steer (direction target_angle turn_speed : float) : float :=
  let diff := (mod_360 (target_angle - direction + 180) - 180)%float in
  let direction :=
    if (abs diff <? turn_speed)%float then target_angle
    else if (0 <? diff)%float then (direction + turn_speed)%float
    else (direction - turn_speed)%float in
  mod_360 direction.

(** [random.uniform(a, b)] for the draw [u] of [random.random()]. *)
Definition uniform (a b u : float) : float := (a + (b - a) * u)%float.

(** The heading after an obstacle hit, line 176. *)
Definition deflect (direction u : float) : float :=
  (direction + uniform 90 270 u)%float.

(** The largest value of [random.random()], [1 - 2^-53]. *)
Definition largest_draw : float := 0x1.fffffffffffffp-1%float.


End Binary64.

(* ================================================================== *)
(** * [main]: set-up and the body of the game loop *)
(* ================================================================== *)

(** A member of [ant_group]. *)
Inductive AntSprite : Type :=
| Worker (w : WorkerAnt.t)
| Soldier (s : SoldierAnt.t).

Definition ant_base (a : AntSprite) : Ant.t :=
  match a with
  | Worker w => WorkerAnt.base w
  | Soldier s => SoldierAnt.base s
  end.

(** The state of a run: the sprite groups and the generator. *)
Record World : Type := mkWorld {
  ant_group : list AntSprite;
  food_group : list Food.t;
  pheromone_group : list Pheromone.t;
  obstacle_group : list Obstacle.t;
  rng : Rng
}.

(** [nest_rect] of [main]. *)
Definition main_nest_rect : Rect :=
  mkRect (SCREEN_WIDTH / 2 - 20)%Z (SCREEN_HEIGHT / 2 - 20)%Z 40 40.

(** [obstacle_list] of [main]. *)
Definition obstacle_list : list Obstacle.t :=
  [ Obstacle.init 100 150 20 300;
    Obstacle.init 600 150 20 300;
    Obstacle.init 300 100 200 20;
    Obstacle.init 300 480 200 20 ].

(** The loop "Create ants at the nest", [n] iterations. *)
Fixpoint create_ants (cfg : Config) (n : nat) (g : Rng)
    : list AntSprite * Rng :=
  match n with
  | O => ([], g)
  | S n' =>
      let (dx, g) := randint (-10) 10 g in
      let (dy, g) := randint (-10) 10 g in
      let ix := (centerx main_nest_rect + dx)%Z in
      let iy := (centery main_nest_rect + dy)%Z in
      let (u, g) := random g in
      let (ant, g) :=
        if Rlt_dec u (WORKER_RATIO cfg) then
          let (w, g) := WorkerAnt.init ix iy main_nest_rect g in (Worker w, g)
        else
          let (s, g) := SoldierAnt.init ix iy g in (Soldier s, g) in
      let (rest, g) := create_ants cfg n' g in
      (ant :: rest, g)
  end.

(** The loop "Create food piles", [n] iterations. *)
Fixpoint create_food (cfg : Config) (n : nat) (g : Rng)
    : list Food.t * Rng :=
  match n with
  | O => ([], g)
  | S n' =>
      let (fx, g) := randint 20 (SCREEN_WIDTH - 20) g in
      let (fy, g) := randint 20 (SCREEN_HEIGHT - 20) g in
      let (rest, g) := create_food cfg n' g in
      (Food.init cfg fx fy :: rest, g)
  end.

(** What the set-up part of [main] ends in: a constructed simulation, or
    an exception carrying a message. *)
Inductive Outcome (A : Type) : Type :=
| Constructed (a : A)
| Raised (msg : String.string).

Arguments Constructed {A} a.
Arguments Raised {A} msg.

(** The part of [main] before the game loop.  [range(n)] is empty for a
    negative [n].  No statement of it raises. *)
Definition main_setup (cfg : Config) (g : Rng) : Outcome World :=
  let (ants, g) := create_ants cfg (Z.to_nat (TOTAL_ANTS cfg)) g in
  let (foods, g) := create_food cfg (Z.to_nat (FOOD_PILES cfg)) g in
  Constructed (mkWorld ants foods [] obstacle_list g).

(** [update] of one member of [ant_group]. *)
Definition sprite_update (a : AntSprite) (food_group : list Food.t)
    (pheromone_group : list Pheromone.t) (obstacle_group : list Obstacle.t)
    (g : Rng) : AntSprite * list Food.t * list Pheromone.t * Rng :=
  match a with
  | Worker w =>
      let '(w, food_group, pheromone_group, g) :=
        WorkerAnt.update w food_group pheromone_group obstacle_group g in
      (Worker w, food_group, pheromone_group, g)
  | Soldier s =>
      let (s, g) := SoldierAnt.update s obstacle_group g in
      (Soldier s, food_group, pheromone_group, g)
  end.

(** [ant_group.update(food_group, pheromone_group, obstacle_group,
    all_sprites)]: the ants are updated one after the other, in group
    order, on the same two groups. *)
Fixpoint ants_update (ants : list AntSprite) (food_group : list Food.t)
    (pheromone_group : list Pheromone.t) (obstacle_group : list Obstacle.t)
    (g : Rng) : list AntSprite * list Food.t * list Pheromone.t * Rng :=
  match ants with
  | [] => ([], food_group, pheromone_group, g)
  | a :: rest =>
      let '(a, food_group, pheromone_group, g) :=
        sprite_update a food_group pheromone_group obstacle_group g in
      let '(rest, food_group, pheromone_group, g) :=
        ants_update rest food_group pheromone_group obstacle_group g in
      (a :: rest, food_group, pheromone_group, g)
  end.

(** The "Update" part of one pass of the game loop. *)
Definition frame (w : World) : World :=
  let '(ants, foods, pheromones, g) :=
    ants_update (ant_group w) (food_group w) (pheromone_group w)
                (obstacle_group w) (rng w) in
  mkWorld ants foods (Pheromone.group_update pheromones) (obstacle_group w) g.

(* ================================================================== *)
(** * Notions the properties are stated with *)
(* ================================================================== *)

(** A heading in [[0, 360)]. *)
Definition normalized (h : R) : Prop := 0 <= h < 360.

(** What [Ant.__init__] establishes and every method keeps: the speed
    and the turn rate are the constants of the script, and the rectangle
    is the 5 by 5 square centred on the rounded position. *)
Definition ant_consistent (a : Ant.t) : Prop :=
  Ant.speed a = ANT_SPEED /\
  Ant.turn_speed a = ANT_TURN_SPEED /\
  Ant.rect a = get_rect_center 5 5 (Ant.x a) (Ant.y a).

(** The advanced position leaves the screen along the x axis, or the y
    axis. *)
Definition out_x (a : Ant.t) : Prop :=
  Ant.x a <= 0 \/ IZR SCREEN_WIDTH <= Ant.x a.

Definition out_y (a : Ant.t) : Prop :=
  Ant.y a <= 0 \/ IZR SCREEN_HEIGHT <= Ant.y a.

(** The components of the result of [WorkerAnt.update]. *)
Definition worker_after (w : WorkerAnt.t) (food_group : list Food.t)
    (pheromone_group : list Pheromone.t) (obstacle_group : list Obstacle.t)
    (g : Rng) : WorkerAnt.t :=
  fst (fst (fst (WorkerAnt.update w food_group pheromone_group
                                  obstacle_group g))).

Definition pheromones_after (w : WorkerAnt.t) (food_group : list Food.t)
    (pheromone_group : list Pheromone.t) (obstacle_group : list Obstacle.t)
    (g : Rng) : list Pheromone.t :=
  snd (fst (WorkerAnt.update w food_group pheromone_group obstacle_group g)).

(** A worker of [main]: a consistent ant that knows the nest of [main]. *)
Definition worker_consistent (w : WorkerAnt.t) : Prop :=
  ant_consistent (WorkerAnt.base w) /\
  WorkerAnt.nest_rect w = main_nest_rect.

(** The workers that occur in a run: a worker as constructed, updated any
    number of times, whatever the groups and the draws at each update. *)
Inductive worker_reachable : WorkerAnt.t -> Prop :=
| reach_init (ix iy : Z) (nest : Rect) (g : Rng) :
    worker_reachable (fst (WorkerAnt.init ix iy nest g))
| reach_update (w : WorkerAnt.t) (food_group : list Food.t)
    (pheromone_group : list Pheromone.t) (obstacle_group : list Obstacle.t)
    (g : Rng) :
    worker_reachable w ->
    worker_reachable
      (worker_after w food_group pheromone_group obstacle_group g).

(** The pheromone groups that occur in a run: the empty group of the
    set-up, grown by deposits and aged by the group update. *)
Inductive field_reachable : list Pheromone.t -> Prop :=
| field_empty : field_reachable []
| field_deposit (group : list Pheromone.t) (x y : R) :
    field_reachable group ->
    field_reachable (group ++ [Pheromone.init x y])
| field_decay (group : list Pheromone.t) :
    field_reachable group ->
    field_reachable (Pheromone.group_update group).

(** Draws for a run in which a heading leaves [[0, 360)]: the first
    draw, 1/128, gives the initial heading 2.8125, the next one, 0, the
    wander turn -5. *)
Definition bug_draws : Rng :=
  fun n => match n with O => / 128 | S _ => 0 end.

(** A returning worker ten pixels west of the centre of the nest,
    heading east, so toward the centre. *)
Definition nest_visitor : WorkerAnt.t :=
  WorkerAnt.mk (Ant.mk (mkRect 388 298 5 5) 390 300 ANT_SPEED 0 ANT_TURN_SPEED)
               main_nest_rect STATE_RETURNING_TO_NEST 5.

(** A seeking worker at the centre of the nest, and a pheromone group
    whose first marker is 100 pixels away and whose second and third are
    10 pixels and 0 pixels away. *)
Definition seeker : WorkerAnt.t :=
  WorkerAnt.mk (Ant.mk (mkRect 398 298 5 5) 400 300 ANT_SPEED 90 ANT_TURN_SPEED)
               main_nest_rect STATE_SEEKING_FOOD 0.

Definition trail : list Pheromone.t :=
  [ Pheromone.mk (mkRect 499 299 3 3) 200;
    Pheromone.mk (mkRect 409 299 3 3) 100;
    Pheromone.mk (mkRect 399 299 3 3) 255 ].

(** [n] successive calls of [pheromone_group.update()]. *)
Definition decay_ticks (n : nat) (group : list Pheromone.t)
    : list Pheromone.t :=
  Nat.iter n Pheromone.group_update group.

(** The projections of the result of [ants_update]. *)
Definition ants_after (r : list AntSprite * list Food.t * list Pheromone.t
                           * Rng) : list AntSprite :=
  fst (fst (fst r)).

Definition food_after (r : list AntSprite * list Food.t * list Pheromone.t
                           * Rng) : list Food.t :=
  snd (fst (fst r)).

Definition field_after (r : list AntSprite * list Food.t * list Pheromone.t
                            * Rng) : list Pheromone.t :=
  snd (fst r).

Definition rng_after (r : list AntSprite * list Food.t * list Pheromone.t
                          * Rng) : Rng :=
  snd r.

(** A returning worker whose cooldown has run out. *)
Definition depositor : WorkerAnt.t :=
  WorkerAnt.mk (Ant.mk (mkRect 428 298 5 5) 430 300 ANT_SPEED 180
                       ANT_TURN_SPEED)
               main_nest_rect STATE_RETURNING_TO_NEST 0.

(** The role of a member of [ant_group]. *)
Definition is_worker (a : AntSprite) : Prop :=
  match a with Worker _ => True | Soldier _ => False end.

Definition is_soldier (a : AntSprite) : Prop :=
  match a with Worker _ => False | Soldier _ => True end.

(** Settings outside the documented ranges: a negative number of ants
    and of food piles, a negative amount per pile, a ratio above 1. *)
Definition bad_config : Config := mkConfig (-1) 1.5 (-1) (-1).

(** A configuration that the specification wants rejected. *)
Definition invalid_config (cfg : Config) : Prop :=
  ~ (0 <= WORKER_RATIO cfg <= 1) \/
  (TOTAL_ANTS cfg < 0)%Z \/ (FOOD_PILES cfg < 0)%Z \/
  (FOOD_AMOUNT_PER_PILE cfg < 0)%Z.

(** [n] successive calls of [take_chunk] on one pile; [None] once the
    pile has killed itself. *)
Fixpoint take_chunks (n : nat) (f : Food.t) : option Food.t :=
  match n with
  | O => Some f
  | S n' =>
      match Food.take_chunk f with
      | Some f' => take_chunks n' f'
      | None => None
      end
  end.

(** The food left in a group. *)
Definition total_food (group : list Food.t) : Z :=
  fold_right (fun f acc => (Food.amount f + acc)%Z) 0%Z group.

(** [n] successive calls of [drop_pheromone] by a worker that stays
    where it is. *)
Fixpoint drop_times (n : nat) (w : WorkerAnt.t) (group : list Pheromone.t)
    : WorkerAnt.t * list Pheromone.t :=
  match n with
  | O => (w, group)
  | S n' =>
      let (w, group) := WorkerAnt.drop_pheromone w group in
      drop_times n' w group
  end.

(** A position strictly inside the screen. *)
Definition inside_screen (a : Ant.t) : Prop :=
  0 < Ant.x a < IZR SCREEN_WIDTH /\ 0 < Ant.y a < IZR SCREEN_HEIGHT.

(** [n] passes of the game loop. *)
Definition run (n : nat) (w : World) : World := Nat.iter n frame w.

(** The role of each member of an ant group, in order. *)
Definition roles (ants : list AntSprite) : list bool :=
  map (fun a => match a with Worker _ => true | Soldier _ => false end) ants.

(** An ant as the set-up creates it: within ten pixels of the centre of
    the nest on each axis, with a heading in [[0, 360)]; a worker is
    seeking, with no cooldown, and knows the nest of [main]. *)
Definition fresh_ant (a : AntSprite) : Prop :=
  ant_consistent (ant_base a) /\
  390 <= Ant.x (ant_base a) <= 410 /\
  290 <= Ant.y (ant_base a) <= 310 /\
  normalized (Ant.direction (ant_base a)) /\
  match a with
  | Worker w =>
      WorkerAnt.state w = STATE_SEEKING_FOOD /\
      WorkerAnt.pheromone_cooldown w = 0%Z /\
      WorkerAnt.nest_rect w = main_nest_rect
  | Soldier s => SoldierAnt.state s = STATE_WANDERING
  end.

(** A pile as the set-up creates it: centred at least twenty pixels from
    every edge of the screen, holding the configured amount. *)
Definition fresh_food (cfg : Config) (f : Food.t) : Prop :=
  (20 <= centerx (Food.rect f) <= SCREEN_WIDTH - 20)%Z /\
  (20 <= centery (Food.rect f) <= SCREEN_HEIGHT - 20)%Z /\
  width (Food.rect f) = 12%Z /\ height (Food.rect f) = 12%Z /\
  Food.amount f = FOOD_AMOUNT_PER_PILE cfg.

(** What every pass of the game loop keeps true of the ants: each one is
    inside the screen, with its rectangle in step with its position and
    the speed and turn rate of the script. *)
Definition ant_in_play (a : AntSprite) : Prop :=
  inside_screen (ant_base a) /\ ant_consistent (ant_base a).

(** An ant whose rectangle, in step with its position, touches no
    obstacle of the group. *)
Definition clear_of (obstacle_group : list Obstacle.t) (a : Ant.t) : Prop :=
  ant_consistent a /\
  spritecollide Obstacle.rect (Ant.rect a) obstacle_group = [].

(* ================================================================== *)
(** * Facts about [float_mod] *)
(* ================================================================== *)

Section FloatMod.

Variable m : R.
Hypothesis m_pos : 0 < m.

(** A value in range that differs from [v] by a multiple of the modulus
    is the remainder. *)
Lemma float_mod_unique (v r : R) (k : Z) :
  0 <= r < m -> v = r + m * IZR k -> float_mod v m = r.
Proof.
  intros Hr Hv. unfold float_mod.
  assert (Hk : k = Int_part (v / m)).
  { apply Int_part_spec.
    assert (Hq : v / m = r / m + IZR k) by (subst v; field; lra).
    rewrite Hq.
    assert (0 <= r / m < 1).
    { split.
      - apply Rmult_le_pos; [lra | left; apply Rinv_0_lt_compat; lra].
      - apply Rmult_lt_reg_r with m; [lra|].
        unfold Rdiv. rewrite Rmult_assoc, Rinv_l by lra. lra. }
    lra. }
  rewrite <- Hk. lra.
Qed.

Lemma float_mod_small (v : R) : 0 <= v < m -> float_mod v m = v.
Proof.
  intros Hv. apply float_mod_unique with (k := 0%Z); [exact Hv | lra].
Qed.

End FloatMod.

(* ================================================================== *)
(** * Steering *)
(* ================================================================== *)

(** [steer] only writes the heading. *)
Lemma steer_frame (self : Ant.t) (target : R) :
  Ant.rect (Ant.steer self target) = Ant.rect self /\
  Ant.x (Ant.steer self target) = Ant.x self /\
  Ant.y (Ant.steer self target) = Ant.y self /\
  Ant.speed (Ant.steer self target) = Ant.speed self /\
  Ant.turn_speed (Ant.steer self target) = Ant.turn_speed self.
Proof.
  unfold Ant.steer.
  destruct (Rlt_dec _ _); [|destruct (Rlt_dec _ _)]; simpl; tauto.
Qed.

(** The heading after [steer], branch by branch. *)
Lemma steer_direction (self : Ant.t) (target : R) :
  let diff := float_mod (target - Ant.direction self + 180) 360 - 180 in
  Ant.direction (Ant.steer self target) =
    float_mod
      (if Rlt_dec (Rabs diff) (Ant.turn_speed self) then target
       else if Rlt_dec 0 diff then Ant.direction self + Ant.turn_speed self
       else Ant.direction self - Ant.turn_speed self) 360.
Proof.
  unfold Ant.steer.
  destruct (Rlt_dec _ _); [|destruct (Rlt_dec _ _)]; reflexivity.
Qed.



(* ================================================================== *)
(** * Movement: boundary and obstacles *)
(* ================================================================== *)

Lemma Rleb_spec (a b : R) : Rleb a b = true <-> a <= b.
Proof.
  unfold Rleb. destruct (Rle_dec a b); split; intros; (easy || tauto).
Qed.

(** The conversion is within a half of the number. *)
Lemma round_away_spec (r : R) :
  (0 <= r -> IZR (round_away r) - / 2 <= r < IZR (round_away r) + / 2) /\
  (r < 0 -> IZR (round_away r) - / 2 < r <= IZR (round_away r) + / 2).
Proof.
  unfold round_away. destruct (Rle_dec 0 r).
  - destruct (base_Int_part (r + / 2)). split; intros; lra.
  - destruct (base_Int_part (- r + / 2)). rewrite opp_IZR.
    split; intros; lra.
Qed.

Lemma round_away_near (r : R) :
  r - / 2 <= IZR (round_away r) <= r + / 2.
Proof.
  destruct (round_away_spec r) as [Hp Hn].
  destruct (Rle_dec 0 r) as [H0 | H0].
  - specialize (Hp H0). lra.
  - assert (Hr : r < 0) by lra. specialize (Hn Hr). lra.
Qed.

(** Integer bounds on a real carry over to its conversion. *)
Lemma round_away_ge (r : R) (n : Z) : IZR n <= r -> (n <= round_away r)%Z.
Proof.
  intros H. pose proof (round_away_near r) as Hn.
  assert (n - 1 < round_away r)%Z; [|lia].
  apply lt_IZR. rewrite minus_IZR. lra.
Qed.

Lemma round_away_le (r : R) (n : Z) : r <= IZR n -> (round_away r <= n)%Z.
Proof.
  intros H. pose proof (round_away_near r) as Hn.
  assert (round_away r < n + 1)%Z; [|lia].
  apply lt_IZR. rewrite plus_IZR. lra.
Qed.

Lemma out_x_spec (a : Ant.t) :
  Rleb (Ant.x a) 0 || Rleb (IZR SCREEN_WIDTH) (Ant.x a) = true <-> out_x a.
Proof. unfold out_x. rewrite orb_true_iff, !Rleb_spec. tauto. Qed.

Lemma out_y_spec (a : Ant.t) :
  Rleb (Ant.y a) 0 || Rleb (IZR SCREEN_HEIGHT) (Ant.y a) = true <-> out_y a.
Proof. unfold out_y. rewrite orb_true_iff, !Rleb_spec. tauto. Qed.

(** The x test of [boundary_check], decided. *)
Lemma out_x_dec (a : Ant.t) :
  { out_x a /\ Rleb (Ant.x a) 0 || Rleb (IZR SCREEN_WIDTH) (Ant.x a) = true } +
  { ~ out_x a /\
    Rleb (Ant.x a) 0 || Rleb (IZR SCREEN_WIDTH) (Ant.x a) = false }.
Proof.
  destruct (Rleb (Ant.x a) 0 || Rleb (IZR SCREEN_WIDTH) (Ant.x a)) eqn:E.
  - left. split; [now apply out_x_spec | reflexivity].
  - right. split; [|reflexivity].
    intros H. apply out_x_spec in H. congruence.
Qed.

Lemma out_y_dec (a : Ant.t) :
  { out_y a /\ Rleb (Ant.y a) 0 || Rleb (IZR SCREEN_HEIGHT) (Ant.y a) = true } +
  { ~ out_y a /\
    Rleb (Ant.y a) 0 || Rleb (IZR SCREEN_HEIGHT) (Ant.y a) = false }.
Proof.
  destruct (Rleb (Ant.y a) 0 || Rleb (IZR SCREEN_HEIGHT) (Ant.y a)) eqn:E.
  - left. split; [now apply out_y_spec | reflexivity].
  - right. split; [|reflexivity].
    intros H. apply out_y_spec in H. congruence.
Qed.

(** What [advance] computes. *)
Lemma advance_spec (self : Ant.t) :
  let a := Ant.advance self in
  Ant.x a = Ant.x self + cos (radians (Ant.direction self)) * Ant.speed self /\
  Ant.y a = Ant.y self + sin (radians (Ant.direction self)) * Ant.speed self /\
  Ant.direction a = Ant.direction self /\
  Ant.speed a = Ant.speed self /\
  Ant.turn_speed a = Ant.turn_speed self.
Proof. cbv zeta. unfold Ant.advance. simpl. tauto. Qed.

(** The step is no longer than the speed on either axis. *)
Lemma advance_near (self : Ant.t) :
  0 <= Ant.speed self ->
  - Ant.speed self <= Ant.x (Ant.advance self) - Ant.x self <= Ant.speed self /\
  - Ant.speed self <= Ant.y (Ant.advance self) - Ant.y self <= Ant.speed self.
Proof.
  intros Hs. destruct (advance_spec self) as (Hx & Hy & _).
  rewrite Hx, Hy.
  pose proof (COS_bound (radians (Ant.direction self))).
  pose proof (SIN_bound (radians (Ant.direction self))).
  split; split; nra.
Qed.

(** [boundary_check] in full: position, heading and rectangle, by the
    two tests. *)
Lemma boundary_check_spec (old_x old_y : R) (a : Ant.t) :
  let b := Ant.boundary_check old_x old_y a in
  (out_x a -> Ant.x b = old_x) /\
  (~ out_x a -> Ant.x b = Ant.x a) /\
  (out_y a -> Ant.y b = old_y) /\
  (~ out_y a -> Ant.y b = Ant.y a) /\
  (out_x a -> ~ out_y a -> Ant.direction b = 180 - Ant.direction a) /\
  (~ out_x a -> out_y a -> Ant.direction b = - Ant.direction a) /\
  (out_x a -> out_y a -> Ant.direction b = - (180 - Ant.direction a)) /\
  (~ out_x a -> ~ out_y a -> Ant.direction b = Ant.direction a) /\
  Ant.speed b = Ant.speed a /\
  Ant.turn_speed b = Ant.turn_speed a /\
  Ant.rect b = set_center (Ant.rect a) (round_away (Ant.x b), round_away (Ant.y b)).
Proof.
  cbv zeta. unfold Ant.boundary_check.
  destruct (out_x_dec a) as [[Hx Ex] | [Hx Ex]]; rewrite Ex.
  - set (a1 := Ant.with_x _ old_x).
    assert (Hy1 : out_y a1 <-> out_y a) by (unfold out_y; simpl; tauto).
    destruct (out_y_dec a1) as [[Hy Ey] | [Hy Ey]]; rewrite Ey; simpl;
      rewrite Hy1 in Hy; repeat split; intros; (tauto || reflexivity).
  - assert (Hy1 : out_y a <-> out_y a) by tauto.
    destruct (out_y_dec a) as [[Hy Ey] | [Hy Ey]]; rewrite Ey; simpl;
      repeat split; intros; (tauto || reflexivity).
Qed.

(** [obstacle_check] in full. *)
Lemma obstacle_check_spec (old_x old_y : R) (b : Ant.t)
    (obstacle_group : list Obstacle.t) (g : Rng) :
  (spritecollide Obstacle.rect (Ant.rect b) obstacle_group = [] ->
     Ant.obstacle_check old_x old_y b obstacle_group g = (b, g)) /\
  (spritecollide Obstacle.rect (Ant.rect b) obstacle_group <> [] ->
     let r := fst (Ant.obstacle_check old_x old_y b obstacle_group g) in
     Ant.x r = old_x /\ Ant.y r = old_y /\
     Ant.direction r = Ant.direction b + (90 + (270 - 90) * g 0%nat) /\
     Ant.speed r = Ant.speed b /\
     Ant.turn_speed r = Ant.turn_speed b /\
     Ant.rect r = set_center (Ant.rect b) (round_away old_x, round_away old_y)).
Proof.
  unfold Ant.obstacle_check.
  destruct (spritecollide Obstacle.rect (Ant.rect b) obstacle_group).
  - split; [reflexivity | congruence].
  - split; [discriminate | intros _; simpl; tauto].
Qed.

(** The rectangle of a consistent ant. *)
Lemma consistent_rect (a : Ant.t) :
  ant_consistent a ->
  Ant.rect a = mkRect (round_away (Ant.x a) - 2) (round_away (Ant.y a) - 2) 5 5.
Proof. intros (_ & _ & Hr). rewrite Hr. reflexivity. Qed.

Lemma init_consistent (ix iy : Z) (g : Rng) :
  ant_consistent (fst (Ant.init ix iy g)).
Proof. unfold ant_consistent, Ant.init. simpl. tauto. Qed.

Lemma steer_consistent (a : Ant.t) (target : R) :
  ant_consistent a -> ant_consistent (Ant.steer a target).
Proof.
  intros (Hs & Ht & Hr).
  destruct (steer_frame a target) as (Er & Ex & Ey & Es & Et).
  unfold ant_consistent. rewrite Er, Ex, Ey, Es, Et. tauto.
Qed.

Lemma wander_consistent (a : Ant.t) (g : Rng) :
  ant_consistent a -> ant_consistent (fst (Ant.wander a g)).
Proof. intros H. exact H. Qed.

Lemma advance_consistent (a : Ant.t) :
  ant_consistent a -> ant_consistent (Ant.advance a).
Proof.
  intros (Hs & Ht & Hr). unfold ant_consistent, Ant.advance. simpl.
  rewrite Hr. tauto.
Qed.

Lemma boundary_check_consistent (old_x old_y : R) (a : Ant.t) :
  ant_consistent a -> ant_consistent (Ant.boundary_check old_x old_y a).
Proof.
  intros (Hs & Ht & Hr).
  destruct (boundary_check_spec old_x old_y a)
    as (_ & _ & _ & _ & _ & _ & _ & _ & Es & Et & Er).
  unfold ant_consistent. rewrite Es, Et, Er, Hr. tauto.
Qed.

Lemma obstacle_check_consistent (old_x old_y : R) (b : Ant.t)
    (obstacle_group : list Obstacle.t) (g : Rng) :
  ant_consistent b ->
  ant_consistent (fst (Ant.obstacle_check old_x old_y b obstacle_group g)).
Proof.
  intros Hb.
  destruct (obstacle_check_spec old_x old_y b obstacle_group g) as [Hno Hhit].
  destruct (spritecollide Obstacle.rect (Ant.rect b) obstacle_group) eqn:E.
  - rewrite Hno by reflexivity. exact Hb.
  - destruct Hhit as (Ex & Ey & _ & Es & Et & Er); [discriminate|].
    destruct Hb as (Hs & Ht & Hr).
    unfold ant_consistent. rewrite Ex, Ey, Es, Et, Er, Hr. tauto.
Qed.

Lemma move_consistent (a : Ant.t) (obstacle_group : list Obstacle.t)
    (g : Rng) :
  ant_consistent a -> ant_consistent (fst (Ant.move a obstacle_group g)).
Proof.
  intros Ha. unfold Ant.move.
  apply obstacle_check_consistent, boundary_check_consistent,
    advance_consistent, Ha.
Qed.

(** Where a 5 by 5 rectangle can touch one of the four obstacles of
    [main]: never within 95 pixels of a screen edge, and never in the
    central block that holds the nest. *)
Lemma obstacle_hit_region (l t : Z) :
  spritecollide Obstacle.rect (mkRect l t 5 5) obstacle_list <> [] ->
  (95 < l < 620 /\ 95 < t < 500)%Z /\
  ~ (120 <= l <= 595 /\ 120 <= t <= 475)%Z.
Proof.
  intros Hhit.
  assert (Hcases :
    colliderect (mkRect l t 5 5) (mkRect 100 150 20 300) = true \/
    colliderect (mkRect l t 5 5) (mkRect 600 150 20 300) = true \/
    colliderect (mkRect l t 5 5) (mkRect 300 100 200 20) = true \/
    colliderect (mkRect l t 5 5) (mkRect 300 480 200 20) = true).
  { unfold spritecollide, obstacle_list, Obstacle.init in Hhit.
    cbn [filter Obstacle.rect] in Hhit.
    destruct (colliderect _ (mkRect 100 _ _ _)); [tauto|].
    destruct (colliderect _ (mkRect 600 _ _ _)); [tauto|].
    destruct (colliderect _ (mkRect 300 100 _ _)); [tauto|].
    destruct (colliderect _ (mkRect 300 480 _ _)); [tauto|].
    congruence. }
  unfold colliderect in Hcases. cbn [left top width height] in Hcases.
  rewrite !andb_true_iff, !Z.ltb_lt in Hcases. lia.
Qed.

(** With the obstacles of [main], an ant that bounced off a screen edge
    is too far from every obstacle to touch one in the same move. *)
Lemma bounce_excludes_obstacle (self : Ant.t) :
  ant_consistent self ->
  let a := Ant.advance self in
  let b := Ant.boundary_check (Ant.x self) (Ant.y self) a in
  spritecollide Obstacle.rect (Ant.rect b) obstacle_list <> [] ->
  ~ out_x a /\ ~ out_y a.
Proof.
  intros Hc a b Hhit.
  assert (Hb : ant_consistent b)
    by (apply boundary_check_consistent, advance_consistent, Hc).
  rewrite (consistent_rect b Hb) in Hhit.
  apply obstacle_hit_region in Hhit. destruct Hhit as [[Hl Ht] _].
  destruct Hc as (Hs & _ & _).
  destruct (advance_near self) as [Nx Ny].
  { rewrite Hs. unfold ANT_SPEED. lra. }
  fold a in Nx, Ny. rewrite Hs in Nx, Ny. unfold ANT_SPEED in Nx, Ny.
  destruct (boundary_check_spec (Ant.x self) (Ant.y self) a)
    as (Bx & _ & By & _).
  fold b in Bx, By.
  split.
  - intros Ho. rewrite (Bx Ho) in Hl.
    destruct Ho as [Ho | Ho].
    + assert (round_away (Ant.x self) <= 2)%Z by (apply round_away_le; lra).
      lia.
    + unfold SCREEN_WIDTH in Ho.
      assert (798 <= round_away (Ant.x self))%Z by (apply round_away_ge; lra).
      lia.
  - intros Ho. rewrite (By Ho) in Ht.
    destruct Ho as [Ho | Ho].
    + assert (round_away (Ant.y self) <= 2)%Z by (apply round_away_le; lra).
      lia.
    + unfold SCREEN_HEIGHT in Ho.
      assert (598 <= round_away (Ant.y self))%Z by (apply round_away_ge; lra).
      lia.
Qed.

(** C6. Boundary bounce, per axis.  With [a] the ant after the advance
    and [b] the ant after the boundary check: when the advanced x is
    [<= 0] or [>= SCREEN_WIDTH], x alone goes back to its value before
    the move and the heading becomes [180 - heading]; when the advanced
    y is [<= 0] or [>= SCREEN_HEIGHT], y alone goes back and the heading
    (already reflected if x bounced too) is negated; an axis that stayed
    inside keeps its advanced value; and each of the four combinations
    is handled, both axes included.  When no obstacle is touched, [b] is
    what [move] returns. *)
Theorem boundary_bounce_per_axis (self : Ant.t)
    (obstacle_group : list Obstacle.t) (g : Rng) :
  let a := Ant.advance self in
  let b := Ant.boundary_check (Ant.x self) (Ant.y self) a in
  (out_x a -> Ant.x b = Ant.x self) /\
  (~ out_x a -> Ant.x b = Ant.x a) /\
  (out_y a -> Ant.y b = Ant.y self) /\
  (~ out_y a -> Ant.y b = Ant.y a) /\
  (out_x a -> ~ out_y a -> Ant.direction b = 180 - Ant.direction self) /\
  (~ out_x a -> out_y a -> Ant.direction b = - Ant.direction self) /\
  (out_x a -> out_y a -> Ant.direction b = - (180 - Ant.direction self)) /\
  (~ out_x a -> ~ out_y a -> Ant.direction b = Ant.direction self) /\
  (spritecollide Obstacle.rect (Ant.rect b) obstacle_group = [] ->
     Ant.move self obstacle_group g = (b, g)).
Proof.
  intros a b.
  destruct (boundary_check_spec (Ant.x self) (Ant.y self) a)
    as (Bx & Kx & By & Ky & Dx & Dy & Dxy & Dn & _).
  fold b in Bx, Kx, By, Ky, Dx, Dy, Dxy, Dn.
  destruct (advance_spec self) as (_ & _ & Ed & _).
  fold a in Ed. rewrite Ed in Dx, Dy, Dxy, Dn.
  repeat (split; [assumption|]).
  intros Hfree. unfold Ant.move. fold a. fold b.
  apply (obstacle_check_spec (Ant.x self) (Ant.y self) b obstacle_group g).
  exact Hfree.
Qed.

(** C7, as amended.  An ant whose rectangle, after the advance and the
    boundary check, overlaps an obstacle of the group ends [move] at the
    position it had before the move, and its heading is the heading left
    by the boundary check plus one draw [N] of [random.uniform(90, 270)],
    which is [90 + 180 * random()] and lies between 90 and 270.  With
    the obstacles of [main] no boundary bounce can precede an overlap,
    so the heading is the heading the ant had before the move plus
    [N]. *)
Theorem obstacle_collision_response (self : Ant.t)
    (obstacle_group : list Obstacle.t) (g : Rng) :
  fair g ->
  let b := Ant.boundary_check (Ant.x self) (Ant.y self) (Ant.advance self) in
  spritecollide Obstacle.rect (Ant.rect b) obstacle_group <> [] ->
  let r := fst (Ant.move self obstacle_group g) in
  let N := fst (uniform 90 270 g) in
  Ant.x r = Ant.x self /\
  Ant.y r = Ant.y self /\
  Ant.direction r = Ant.direction b + N /\
  N = 90 + (270 - 90) * fst (random g) /\
  90 <= N <= 270 /\
  (ant_consistent self -> obstacle_group = obstacle_list ->
     Ant.direction r = Ant.direction self + N).
Proof.
  intros Hg b Hhit r N.
  destruct (obstacle_check_spec (Ant.x self) (Ant.y self) b obstacle_group g)
    as [_ Hr].
  destruct (Hr Hhit) as (Ex & Ey & Edir & _).
  change (fst (Ant.obstacle_check (Ant.x self) (Ant.y self) b
                 obstacle_group g))
    with r in Ex, Ey, Edir.
  change (90 + (270 - 90) * g 0%nat) with N in Edir.
  specialize (Hg 0%nat).
  split; [exact Ex | split; [exact Ey | split; [exact Edir|]]].
  split; [reflexivity|].
  split; [unfold N, uniform, random; cbn [fst]; lra|].
  intros Hc ->.
  destruct (bounce_excludes_obstacle self Hc Hhit) as [Hnx Hny].
  destruct (boundary_check_spec (Ant.x self) (Ant.y self) (Ant.advance self))
    as (_ & _ & _ & _ & _ & _ & _ & Dn & _).
  specialize (Dn Hnx Hny). fold b in Dn.
  destruct (advance_spec self) as (_ & _ & Ed & _). rewrite Ed in Dn.
  now rewrite Edir, Dn.
Qed.

(** The conversion at concrete values. *)
Lemma round_away_eq (r : R) (n : Z) :
  0 <= r -> IZR n - / 2 <= r < IZR n + / 2 -> round_away r = n.
Proof.
  intros H0 Hr. destruct (round_away_spec r) as [Hp _]. specialize (Hp H0).
  assert (n - 1 < round_away r)%Z
    by (apply lt_IZR; rewrite minus_IZR; lra).
  assert (round_away r < n + 1)%Z
    by (apply lt_IZR; rewrite plus_IZR; lra).
  lia.
Qed.

Lemma round_away_IZR (n : Z) : round_away (IZR n) = n.
Proof.
  pose proof (round_away_near (IZR n)) as Hn.
  assert (n - 1 < round_away (IZR n))%Z
    by (apply lt_IZR; rewrite minus_IZR; lra).
  assert (round_away (IZR n) < n + 1)%Z
    by (apply lt_IZR; rewrite plus_IZR; lra).
  lia.
Qed.

(** Bounds on the conversion bound the number itself. *)
Lemma round_away_inv (r : R) (n m : Z) :
  (n <= round_away r <= m)%Z -> IZR n - / 2 <= r <= IZR m + / 2.
Proof.
  intros [Hlo Hhi]. pose proof (round_away_near r) as Hn.
  apply IZR_le in Hlo, Hhi. lra.
Qed.

(** Inside the screen the boundary check changes nothing. *)
Lemma boundary_check_inside (self : Ant.t) :
  ~ out_x (Ant.advance self) -> ~ out_y (Ant.advance self) ->
  Ant.boundary_check (Ant.x self) (Ant.y self) (Ant.advance self)
  = Ant.advance self.
Proof.
  intros Hx Hy. unfold Ant.boundary_check.
  destruct (out_x_dec (Ant.advance self)) as [[Hx' _] | [_ Ex]]; [tauto|].
  rewrite Ex.
  destruct (out_y_dec (Ant.advance self)) as [[Hy' _] | [_ Ey]]; [tauto|].
  rewrite Ey. reflexivity.
Qed.

(** In the central block of the screen, which holds the nest, a move is
    the advance alone: no edge and none of the obstacles of [main] is in
    reach. *)
Lemma move_free (self : Ant.t) (g : Rng) :
  ant_consistent self ->
  124 <= Ant.x self <= 595 ->
  124 <= Ant.y self <= 475 ->
  Ant.move self obstacle_list g = (Ant.advance self, g).
Proof.
  intros Hc Hx Hy.
  assert (Ha : ant_consistent (Ant.advance self))
    by (apply advance_consistent, Hc).
  destruct (advance_near self) as [Nx Ny].
  { destruct Hc as (Hs & _). rewrite Hs. unfold ANT_SPEED. lra. }
  destruct Hc as (Hs & _). rewrite Hs in Nx, Ny. unfold ANT_SPEED in Nx, Ny.
  assert (Hox : ~ out_x (Ant.advance self)).
  { unfold out_x, SCREEN_WIDTH. lra. }
  assert (Hoy : ~ out_y (Ant.advance self)).
  { unfold out_y, SCREEN_HEIGHT. lra. }
  unfold Ant.move. rewrite (boundary_check_inside self Hox Hoy).
  apply obstacle_check_spec.
  destruct (spritecollide Obstacle.rect (Ant.rect (Ant.advance self))
              obstacle_list) eqn:E; [reflexivity | exfalso].
  assert (Hhit : spritecollide Obstacle.rect (Ant.rect (Ant.advance self))
                   obstacle_list <> []) by (rewrite E; discriminate).
  rewrite (consistent_rect _ Ha) in Hhit.
  apply obstacle_hit_region in Hhit. destruct Hhit as [_ Hout].
  apply Hout.
  assert (122 <= round_away (Ant.x (Ant.advance self)))%Z
    by (apply round_away_ge; lra).
  assert (round_away (Ant.x (Ant.advance self)) <= 597)%Z
    by (apply round_away_le; lra).
  assert (122 <= round_away (Ant.y (Ant.advance self)))%Z
    by (apply round_away_ge; lra).
  assert (round_away (Ant.y (Ant.advance self)) <= 477)%Z
    by (apply round_away_le; lra).
  lia.
Qed.

Lemma fair_zero : fair (fun _ => 0).
Proof. intros n. lra. Qed.

Lemma radians_0 : radians 0 = 0.
Proof. unfold radians. lra. Qed.

(** The response at an ant next to the left wall obstacle, heading
    east. *)
Lemma obstacle_collision_response_witness :
  let ant := Ant.mk (get_rect_center 5 5 98 300) 98 300 ANT_SPEED 0
                    ANT_TURN_SPEED in
  let r := fst (Ant.move ant obstacle_list (fun _ => 0)) in
  Ant.x r = 98 /\ Ant.y r = 300 /\
  Ant.direction r = 0 + fst (uniform 90 270 (fun _ => 0)).
Proof.
  intros ant r.
  assert (Hc : ant_consistent ant) by (unfold ant_consistent; simpl; tauto).
  assert (Hhit : spritecollide Obstacle.rect
                   (Ant.rect (Ant.boundary_check (Ant.x ant) (Ant.y ant)
                                (Ant.advance ant)))
                   obstacle_list <> []).
  { destruct (advance_spec ant) as (Ex & Ey & _).
    cbn [Ant.x Ant.y Ant.direction Ant.speed ant] in Ex, Ey.
    rewrite radians_0, cos_0 in Ex. rewrite radians_0, sin_0 in Ey.
    unfold ANT_SPEED in Ex, Ey.
    assert (Hox : ~ out_x (Ant.advance ant)).
    { unfold out_x, SCREEN_WIDTH. rewrite Ex. lra. }
    assert (Hoy : ~ out_y (Ant.advance ant)).
    { unfold out_y, SCREEN_HEIGHT. rewrite Ey. lra. }
    rewrite (boundary_check_inside ant Hox Hoy).
    rewrite (consistent_rect _ (advance_consistent _ Hc)), Ex, Ey.
    rewrite (round_away_eq (98 + 1 * 1.5) 100) by lra.
    rewrite (round_away_eq (300 + 0 * 1.5) 300) by lra.
    vm_compute. discriminate. }
  destruct (obstacle_collision_response ant obstacle_list (fun _ => 0)
              fair_zero Hhit) as (Hx & Hy & _ & _ & _ & Hd).
  split; [exact Hx | split; [exact Hy | exact (Hd Hc eq_refl)]].
Defined.

Module Binary64Facts.

Import Floats.


(** C7 fails as stated, on the floats of the script: for the largest
    value of [random.random()], which is below 1,
    [random.uniform(90, 270)] is exactly 270, so an ant with heading 0
    leaves an obstacle hit with heading 270, and the delta 270 is not
    below 270. *)
Lemma obstacle_collision_response_counterexample :
  (0 <=? Binary64.largest_draw)%float = true /\
  (Binary64.largest_draw <? 1)%float = true /\
  Binary64.uniform 90 270 Binary64.largest_draw = 270%float /\
  Binary64.deflect 0 Binary64.largest_draw = 270%float /\
  (Binary64.deflect 0 Binary64.largest_draw - 0 <? 270)%float = false.
Proof. vm_compute. repeat split; reflexivity. Qed.

End Binary64Facts.

Lemma radians_225 : radians 225 = 5 * (PI / 4).
Proof. unfold radians. lra. Qed.

(** Heading 225 moves an ant by more than half of its speed on each
    axis, toward the origin. *)
Lemma cos_5PI4_bound : cos (5 * (PI / 4)) < - / 2.
Proof.
  rewrite cos_5PI4.
  assert (H0 := Rlt_sqrt2_0).
  assert (H2 : sqrt 2 < 2) by (apply sqrt_less; lra).
  assert (Hi : / 2 < / sqrt 2) by (apply Rinv_lt_contravar; nra).
  unfold Rdiv. lra.
Qed.

(** Both axes bounce in one move: an ant in the corner of the screen at
    the origin, heading 225, keeps its position, and its heading becomes
    [- (180 - 225)]. *)
Lemma boundary_bounce_per_axis_witness :
  let ant := Ant.mk (get_rect_center 5 5 0.5 0.5) 0.5 0.5 ANT_SPEED 225
                    ANT_TURN_SPEED in
  let b := Ant.boundary_check 0.5 0.5 (Ant.advance ant) in
  out_x (Ant.advance ant) /\ out_y (Ant.advance ant) /\
  Ant.x b = 0.5 /\ Ant.y b = 0.5 /\ Ant.direction b = - (180 - 225).
Proof.
  intros ant b.
  destruct (boundary_bounce_per_axis ant [] (fun _ => 0))
    as (Bx & _ & By & _ & _ & _ & Dxy & _).
  destruct (advance_spec ant) as (Ex & Ey & _).
  cbn [Ant.x Ant.y Ant.direction Ant.speed ant] in Ex, Ey.
  rewrite radians_225 in Ex, Ey. rewrite <- sin_cos5PI4 in Ey.
  pose proof cos_5PI4_bound as Hcos. unfold ANT_SPEED in Ex, Ey.
  assert (Hox : out_x (Ant.advance ant)) by (left; rewrite Ex; lra).
  assert (Hoy : out_y (Ant.advance ant)) by (left; rewrite Ey; lra).
  split; [exact Hox | split; [exact Hoy|]].
  split; [exact (Bx Hox) | split; [exact (By Hoy) | exact (Dxy Hox Hoy)]].
Defined.

(* ================================================================== *)
(** * The worker: what one update does *)
(* ================================================================== *)

(** [collect] leaves the ant and the cooldown alone. *)
Lemma collect_frame (w : WorkerAnt.t) (food_group : list Food.t) :
  WorkerAnt.base (fst (WorkerAnt.collect w food_group)) = WorkerAnt.base w /\
  WorkerAnt.nest_rect (fst (WorkerAnt.collect w food_group))
    = WorkerAnt.nest_rect w /\
  WorkerAnt.pheromone_cooldown (fst (WorkerAnt.collect w food_group))
    = WorkerAnt.pheromone_cooldown w.
Proof.
  unfold WorkerAnt.collect.
  destruct (spritecollide _ _ _); simpl; tauto.
Qed.

(** [turn] leaves the state, the nest and the cooldown alone. *)
Lemma turn_frame (w : WorkerAnt.t) (target : option (Z * Z)) (g : Rng) :
  WorkerAnt.state (fst (WorkerAnt.turn w target g)) = WorkerAnt.state w /\
  WorkerAnt.nest_rect (fst (WorkerAnt.turn w target g))
    = WorkerAnt.nest_rect w /\
  WorkerAnt.pheromone_cooldown (fst (WorkerAnt.turn w target g))
    = WorkerAnt.pheromone_cooldown w.
Proof. destruct target; simpl; tauto. Qed.

(** [drop_pheromone], by the value of the cooldown. *)
Lemma drop_pheromone_spec (w : WorkerAnt.t) (group : list Pheromone.t) :
  let r := WorkerAnt.drop_pheromone w group in
  WorkerAnt.base (fst r) = WorkerAnt.base w /\
  WorkerAnt.state (fst r) = WorkerAnt.state w /\
  WorkerAnt.nest_rect (fst r) = WorkerAnt.nest_rect w /\
  ((WorkerAnt.pheromone_cooldown w <= 0)%Z ->
     WorkerAnt.pheromone_cooldown (fst r) = PHEROMONE_DROP_RATE /\
     snd r = group ++ [Pheromone.init (Ant.x (WorkerAnt.base w))
                                      (Ant.y (WorkerAnt.base w))]) /\
  ((0 < WorkerAnt.pheromone_cooldown w)%Z ->
     WorkerAnt.pheromone_cooldown (fst r)
       = (WorkerAnt.pheromone_cooldown w - 1)%Z /\
     snd r = group).
Proof.
  cbv zeta. unfold WorkerAnt.drop_pheromone.
  destruct (Z.leb_spec (WorkerAnt.pheromone_cooldown w) 0); simpl;
    repeat split; intros; (reflexivity || lia).
Qed.

(** [arrive] leaves the cooldown, the nest and the position alone. *)
Lemma arrive_frame (w : WorkerAnt.t) :
  WorkerAnt.pheromone_cooldown (WorkerAnt.arrive w)
    = WorkerAnt.pheromone_cooldown w /\
  WorkerAnt.nest_rect (WorkerAnt.arrive w) = WorkerAnt.nest_rect w /\
  Ant.rect (WorkerAnt.base (WorkerAnt.arrive w))
    = Ant.rect (WorkerAnt.base w).
Proof.
  unfold WorkerAnt.arrive. destruct (colliderect _ _); simpl; tauto.
Qed.

(** The result of [update], read off its three stages. *)
Lemma update_stages (w : WorkerAnt.t) (food_group : list Food.t)
    (pheromone_group : list Pheromone.t) (obstacle_group : list Obstacle.t)
    (g : Rng) :
  let d := WorkerAnt.decide w food_group pheromone_group in
  let target := fst (fst (fst d)) in
  let w1 := snd (fst (fst d)) in
  let t := WorkerAnt.turn w1 target g in
  let m := Ant.move (WorkerAnt.base (fst t)) obstacle_group (snd t) in
  WorkerAnt.update w food_group pheromone_group obstacle_group g
  = (WorkerAnt.with_base (fst t) (fst m), snd (fst d), snd d, snd m).
Proof.
  cbv zeta. unfold WorkerAnt.update.
  destruct (WorkerAnt.decide w food_group pheromone_group)
    as [[[target w1] foods] pheromones].
  cbn [fst snd].
  destruct (WorkerAnt.turn w1 target g) as [w2 g2]. cbn [fst snd].
  destruct (Ant.move (WorkerAnt.base w2) obstacle_group g2) as [b g3].
  reflexivity.
Qed.

(** The cooldown after one update. *)
Lemma update_cooldown (w : WorkerAnt.t) (food_group : list Food.t)
    (pheromone_group : list Pheromone.t) (obstacle_group : list Obstacle.t)
    (g : Rng) :
  WorkerAnt.pheromone_cooldown
    (worker_after w food_group pheromone_group obstacle_group g)
  = match WorkerAnt.state w with
    | STATE_RETURNING_TO_NEST =>
        if (WorkerAnt.pheromone_cooldown w <=? 0)%Z then PHEROMONE_DROP_RATE
        else (WorkerAnt.pheromone_cooldown w - 1)%Z
    | _ => WorkerAnt.pheromone_cooldown w
    end.
Proof.
  unfold worker_after. rewrite update_stages. cbn [fst snd].
  cbn [WorkerAnt.with_base WorkerAnt.pheromone_cooldown].
  match goal with
  | |- context [WorkerAnt.turn ?a ?b ?c] =>
      destruct (turn_frame a b c) as (_ & _ & ->)
  end.
  unfold WorkerAnt.decide. destruct (WorkerAnt.state w).
  - destruct (WorkerAnt.collect w food_group) as [w1 foods] eqn:E.
    cbn [fst snd].
    destruct (collect_frame w food_group) as (_ & _ & Hc).
    rewrite E in Hc. exact Hc.
  - destruct (WorkerAnt.drop_pheromone w pheromone_group) as [w1 ps] eqn:E.
    cbn [fst snd].
    destruct (arrive_frame w1) as (-> & _).
    destruct (drop_pheromone_spec w pheromone_group)
      as (_ & _ & _ & Hdrop & Hkeep).
    rewrite E in Hdrop, Hkeep. cbn [fst snd] in Hdrop, Hkeep.
    destruct (Z.leb_spec (WorkerAnt.pheromone_cooldown w) 0).
    + now apply Hdrop.
    + now apply Hkeep.
  - reflexivity.
Qed.

(** The pheromone group after one update. *)
Lemma update_pheromones (w : WorkerAnt.t) (food_group : list Food.t)
    (pheromone_group : list Pheromone.t) (obstacle_group : list Obstacle.t)
    (g : Rng) :
  pheromones_after w food_group pheromone_group obstacle_group g
  = match WorkerAnt.state w with
    | STATE_RETURNING_TO_NEST =>
        if (WorkerAnt.pheromone_cooldown w <=? 0)%Z then
          pheromone_group ++ [Pheromone.init (Ant.x (WorkerAnt.base w))
                                             (Ant.y (WorkerAnt.base w))]
        else pheromone_group
    | _ => pheromone_group
    end.
Proof.
  unfold pheromones_after. rewrite update_stages. cbn [fst snd].
  unfold WorkerAnt.decide. destruct (WorkerAnt.state w).
  - destruct (WorkerAnt.collect w food_group). reflexivity.
  - unfold WorkerAnt.drop_pheromone.
    destruct (WorkerAnt.pheromone_cooldown w <=? 0)%Z; reflexivity.
  - reflexivity.
Qed.

(** C10. Cooldown invariant: the cooldown of every reachable worker is
    an integer of [[0, PHEROMONE_DROP_RATE]]; an update in the returning
    state resets it to [PHEROMONE_DROP_RATE] when it deposits (cooldown
    [<= 0], one marker added at the worker's position) and otherwise
    lowers it by one, adding no marker; an update in the seeking state
    leaves it as it is. *)
Theorem cooldown_invariant :
  (forall w, worker_reachable w ->
     (0 <= WorkerAnt.pheromone_cooldown w <= PHEROMONE_DROP_RATE)%Z) /\
  (forall w food_group pheromone_group obstacle_group g,
     WorkerAnt.state w = STATE_RETURNING_TO_NEST ->
     let w' := worker_after w food_group pheromone_group obstacle_group g in
     let ps :=
       pheromones_after w food_group pheromone_group obstacle_group g in
     ((WorkerAnt.pheromone_cooldown w <= 0)%Z ->
        WorkerAnt.pheromone_cooldown w' = PHEROMONE_DROP_RATE /\
        ps = pheromone_group ++
             [Pheromone.init (Ant.x (WorkerAnt.base w))
                             (Ant.y (WorkerAnt.base w))]) /\
     ((0 < WorkerAnt.pheromone_cooldown w)%Z ->
        WorkerAnt.pheromone_cooldown w'
          = (WorkerAnt.pheromone_cooldown w - 1)%Z /\
        ps = pheromone_group)) /\
  (forall w food_group pheromone_group obstacle_group g,
     WorkerAnt.state w = STATE_SEEKING_FOOD ->
     let w' := worker_after w food_group pheromone_group obstacle_group g in
     let ps :=
       pheromones_after w food_group pheromone_group obstacle_group g in
     WorkerAnt.pheromone_cooldown w' = WorkerAnt.pheromone_cooldown w /\
     ps = pheromone_group).
Proof.
  split; [|split].
  - induction 1 as [ix iy nest g | w F P O g Hw IH].
    + unfold WorkerAnt.init. destruct (Ant.init ix iy g). simpl.
      unfold PHEROMONE_DROP_RATE. lia.
    + rewrite update_cooldown. unfold PHEROMONE_DROP_RATE in *.
      destruct (WorkerAnt.state w); try exact IH.
      destruct (Z.leb_spec (WorkerAnt.pheromone_cooldown w) 0); lia.
  - intros w F P O g Hst w' ps. unfold w', ps.
    rewrite update_cooldown, update_pheromones, Hst.
    split; intros Hc.
    + destruct (Z.leb_spec (WorkerAnt.pheromone_cooldown w) 0);
        [split; reflexivity | lia].
    + destruct (Z.leb_spec (WorkerAnt.pheromone_cooldown w) 0);
        [lia | split; reflexivity].
  - intros w F P O g Hst w' ps. unfold w', ps.
    rewrite update_cooldown, update_pheromones, Hst. split; reflexivity.
Qed.

(* ================================================================== *)
(** * Headings over a whole update *)
(* ================================================================== *)

Lemma fair_bug_draws : fair bug_draws.
Proof.
  intros [|n]; unfold bug_draws; [|lra].
  assert (0 < / 128) by (apply Rinv_0_lt_compat; lra).
  assert (/ 128 < / 1) by (apply Rinv_lt_contravar; lra).
  rewrite Rinv_1 in *. lra.
Qed.

(** C1, on the code.  A soldier created at the centre of the nest with
    the draws [bug_draws] starts with heading 2.8125; its first update
    wanders by -5 and moves freely, and leaves it with heading -2.1875,
    which is not in [[0, 360)]: neither the wander rule nor [move]
    renormalises the heading, only [steer] does. *)
Theorem soldier_heading_leaves_range :
  let s := fst (SoldierAnt.init 400 300 bug_draws) in
  let g := snd (SoldierAnt.init 400 300 bug_draws) in
  let s' := fst (SoldierAnt.update s obstacle_list g) in
  fair bug_draws /\
  Ant.direction (SoldierAnt.base s) = 2.8125 /\
  Ant.direction (SoldierAnt.base s') = -2.1875 /\
  ~ normalized (Ant.direction (SoldierAnt.base s')).
Proof.
  intros s g s'.
  assert (Hd : Ant.direction (SoldierAnt.base s') = -2.1875).
  { unfold s', SoldierAnt.update.
    destruct (Ant.wander (SoldierAnt.base s) g) as [b g1] eqn:Ew.
    assert (Hb : ant_consistent b).
    { replace b with (fst (Ant.wander (SoldierAnt.base s) g))
        by (rewrite Ew; reflexivity).
      apply wander_consistent. unfold s. apply init_consistent. }
    assert (Hx : Ant.x b = 400 /\ Ant.y b = 300 /\
                 Ant.direction b = 0 + (360 - 0) * / 128
                                   + (- ANT_TURN_SPEED
                                      + (ANT_TURN_SPEED - - ANT_TURN_SPEED) * 0)).
    { inversion Ew. simpl. tauto. }
    destruct Hx as (Hx & Hy & Hdir).
    rewrite (move_free b g1 Hb) by lra.
    cbn [fst SoldierAnt.base].
    destruct (advance_spec b) as (_ & _ & -> & _).
    rewrite Hdir. unfold ANT_TURN_SPEED. lra. }
  split; [exact fair_bug_draws|].
  split; [unfold s; simpl; lra|].
  split; [exact Hd|].
  rewrite Hd. unfold normalized. lra.
Qed.

(** A consistent ant whose rectangle overlaps the nest of [main] is
    within three pixels of the nest. *)
Lemma nest_overlap_range (a : Ant.t) :
  ant_consistent a ->
  colliderect (Ant.rect a) main_nest_rect = true ->
  377 <= Ant.x a <= 422 /\ 277 <= Ant.y a <= 322.
Proof.
  intros Hc Hhit. rewrite (consistent_rect a Hc) in Hhit.
  unfold colliderect, main_nest_rect, SCREEN_WIDTH, SCREEN_HEIGHT in Hhit.
  cbn [left top width height] in Hhit.
  change (800 / 2 - 20)%Z with 380%Z in Hhit.
  change (600 / 2 - 20)%Z with 280%Z in Hhit.
  rewrite !andb_true_iff, !Z.ltb_lt in Hhit.
  assert (Hx : IZR 378 - / 2 <= Ant.x a <= IZR 421 + / 2)
    by (apply round_away_inv; lia).
  assert (Hy : IZR 278 - / 2 <= Ant.y a <= IZR 321 + / 2)
    by (apply round_away_inv; lia).
  lra.
Qed.

(** An update of a returning worker of [main] that overlaps the nest:
    the state, and the heading as the result of the half turn followed
    by the steering toward the centre of the nest. *)
Lemma update_at_nest (w : WorkerAnt.t) (food_group : list Food.t)
    (pheromone_group : list Pheromone.t) (g : Rng) :
  worker_consistent w ->
  WorkerAnt.state w = STATE_RETURNING_TO_NEST ->
  colliderect (Ant.rect (WorkerAnt.base w)) (WorkerAnt.nest_rect w) = true ->
  let w' := worker_after w food_group pheromone_group obstacle_list g in
  WorkerAnt.state w' = STATE_SEEKING_FOOD /\
  Ant.direction (WorkerAnt.base w') =
    Ant.direction
      (Ant.steer
         (Ant.with_direction (WorkerAnt.base w)
            (Ant.direction (WorkerAnt.base w) + 180))
         (get_angle_to (center (Ant.rect (WorkerAnt.base w)))
                       (center (WorkerAnt.nest_rect w)))).
Proof.
  intros [Hc Hnest] Hst Hhit w'. unfold w', worker_after.
  rewrite update_stages. cbn [fst snd].
  unfold WorkerAnt.decide. rewrite Hst.
  destruct (WorkerAnt.drop_pheromone w pheromone_group) as [w1 ps] eqn:Ed.
  destruct (drop_pheromone_spec w pheromone_group) as (Eb & Es & En & _).
  rewrite Ed in Eb, Es, En. cbn [fst snd] in Eb, Es, En |- *.
  assert (Ea : WorkerAnt.arrive w1 =
               WorkerAnt.with_base (WorkerAnt.with_state w1 STATE_SEEKING_FOOD)
                 (Ant.with_direction (WorkerAnt.base w)
                    (Ant.direction (WorkerAnt.base w) + 180))).
  { unfold WorkerAnt.arrive. rewrite Eb, En, Hhit.
    cbn [WorkerAnt.with_state WorkerAnt.base]. rewrite Eb. reflexivity. }
  rewrite Ea. cbn [WorkerAnt.turn WorkerAnt.with_base WorkerAnt.with_state
                   WorkerAnt.base WorkerAnt.state fst snd Ant.with_direction
                   Ant.rect].
  split; [reflexivity|].
  set (b := Ant.steer _ _).
  assert (Hb : ant_consistent b) by (apply steer_consistent; exact Hc).
  destruct (steer_frame
              (Ant.with_direction (WorkerAnt.base w)
                 (Ant.direction (WorkerAnt.base w) + 180))
              (get_angle_to (center (Ant.rect (WorkerAnt.base w)))
                            (center (WorkerAnt.nest_rect w))))
    as (_ & Hx & Hy & _).
  fold b in Hx, Hy. cbn [Ant.with_direction Ant.x Ant.y] in Hx, Hy.
  rewrite Hnest in Hhit.
  destruct (nest_overlap_range _ Hc Hhit) as [Rx Ry].
  rewrite (move_free b g Hb) by (rewrite ?Hx, ?Hy; lra).
  cbn [fst]. destruct (advance_spec b) as (_ & _ & -> & _). reflexivity.
Qed.

(** C2, as amended.  When a returning worker of [main] overlaps the nest
    during its update, its state becomes [STATE_SEEKING_FOOD] in that
    update and its heading is turned by 180 degrees; the update then
    still steers that heading toward the centre of the nest before it
    moves, and the move, far from every edge and obstacle, leaves the
    heading alone.  So the heading at the end of the update is the
    steered one: the bearing of the centre of the nest when the turned
    heading is closer to it than the turn rate, and otherwise the turned
    heading plus or minus the turn rate, modulo 360 in each case. *)
Theorem nest_arrival_transition (w : WorkerAnt.t) (food_group : list Food.t)
    (pheromone_group : list Pheromone.t) (g : Rng) :
  worker_consistent w ->
  WorkerAnt.state w = STATE_RETURNING_TO_NEST ->
  colliderect (Ant.rect (WorkerAnt.base w)) (WorkerAnt.nest_rect w) = true ->
  let h := Ant.direction (WorkerAnt.base w) in
  let target_angle :=
    get_angle_to (center (Ant.rect (WorkerAnt.base w)))
                 (center (WorkerAnt.nest_rect w)) in
  let diff := float_mod (target_angle - (h + 180) + 180) 360 - 180 in
  let w' := worker_after w food_group pheromone_group obstacle_list g in
  WorkerAnt.state w' = STATE_SEEKING_FOOD /\
  Ant.direction (WorkerAnt.base w') =
    Ant.direction
      (Ant.steer (Ant.with_direction (WorkerAnt.base w) (h + 180))
                 target_angle) /\
  Ant.direction (WorkerAnt.base w') =
    float_mod
      (if Rlt_dec (Rabs diff) ANT_TURN_SPEED then target_angle
       else if Rlt_dec 0 diff then h + 180 + ANT_TURN_SPEED
       else h + 180 - ANT_TURN_SPEED) 360.
Proof.
  intros Hw Hst Hhit h target_angle diff w'.
  destruct (update_at_nest w food_group pheromone_group g Hw Hst Hhit)
    as [Hs Hd].
  fold w' h target_angle in Hs, Hd.
  split; [exact Hs | split; [exact Hd|]].
  rewrite Hd, steer_direction.
  destruct Hw as [(_ & Ht & _) _].
  cbn [Ant.with_direction Ant.turn_speed Ant.direction].
  rewrite Ht. reflexivity.
Qed.

Lemma nest_visitor_consistent : worker_consistent nest_visitor.
Proof.
  split; [|reflexivity].
  unfold ant_consistent, nest_visitor, get_rect_center, set_center.
  cbn [WorkerAnt.base Ant.speed Ant.turn_speed Ant.rect Ant.x Ant.y
       fst snd width height].
  rewrite (round_away_IZR 390), (round_away_IZR 300).
  repeat split; reflexivity.
Qed.

Lemma nest_visitor_overlaps :
  colliderect (Ant.rect (WorkerAnt.base nest_visitor))
              (WorkerAnt.nest_rect nest_visitor) = true.
Proof. vm_compute. reflexivity. Qed.

(** The centre of the nest is due east of [nest_visitor]. *)
Lemma nest_visitor_angle :
  get_angle_to (center (Ant.rect (WorkerAnt.base nest_visitor)))
               (center (WorkerAnt.nest_rect nest_visitor)) = 0.
Proof.
  unfold get_angle_to.
  change (fst (center (WorkerAnt.nest_rect nest_visitor))
          - fst (center (Ant.rect (WorkerAnt.base nest_visitor))))%Z
    with 10%Z.
  change (snd (center (WorkerAnt.nest_rect nest_visitor))
          - snd (center (Ant.rect (WorkerAnt.base nest_visitor))))%Z
    with 0%Z.
  cbv zeta. unfold atan2.
  destruct (Rlt_dec 0 10) as [_ | Hn]; [|lra].
  unfold Rdiv. rewrite Rmult_0_l, atan_0. unfold degrees. lra.
Qed.

(** The update of [nest_visitor]: heading 0 becomes 180 at the nest and
    is then steered by the turn rate toward the centre, to 175. *)
Lemma nest_visitor_update :
  let w' := worker_after nest_visitor [] [] obstacle_list (fun _ => 0) in
  WorkerAnt.state w' = STATE_SEEKING_FOOD /\
  Ant.direction (WorkerAnt.base w') = 175.
Proof.
  intros w'.
  destruct (update_at_nest nest_visitor [] [] (fun _ => 0)
              nest_visitor_consistent eq_refl nest_visitor_overlaps)
    as [Hs Hd].
  fold w' in Hs, Hd. split; [exact Hs|].
  rewrite Hd, nest_visitor_angle, steer_direction.
  cbn [Ant.with_direction Ant.direction Ant.turn_speed WorkerAnt.base
       nest_visitor].
  cbv zeta. unfold ANT_TURN_SPEED.
  replace (0 - (0 + 180) + 180) with 0 by lra.
  rewrite (float_mod_small 360 ltac:(lra) 0) by lra.
  replace (0 - 180) with (-180) by lra.
  destruct (Rlt_dec (Rabs (-180)) 5) as [Habs | _].
  { rewrite Rabs_left1 in Habs; lra. }
  destruct (Rlt_dec 0 (-180)) as [Hpos | _]; [lra|].
  replace (0 + 180 - 5) with 175 by lra.
  apply float_mod_small; lra.
Qed.

(** C2 fails as stated: [nest_visitor] is a returning worker that
    overlaps the nest, and the heading it ends its update with, 175, is
    not its heading 0 turned by 180 degrees. *)
Lemma nest_arrival_counterexample :
  let w' := worker_after nest_visitor [] [] obstacle_list (fun _ => 0) in
  WorkerAnt.state nest_visitor = STATE_RETURNING_TO_NEST /\
  colliderect (Ant.rect (WorkerAnt.base nest_visitor))
              (WorkerAnt.nest_rect nest_visitor) = true /\
  Ant.direction (WorkerAnt.base w')
    <> float_mod (Ant.direction (WorkerAnt.base nest_visitor) + 180) 360.
Proof.
  intros w'.
  split; [reflexivity | split; [exact nest_visitor_overlaps|]].
  destruct nest_visitor_update as [_ Hd]. fold w' in Hd. rewrite Hd.
  cbn [Ant.direction WorkerAnt.base nest_visitor].
  rewrite float_mod_small by lra. lra.
Qed.

(** The amended statement at [nest_visitor]. *)
Lemma nest_arrival_transition_witness :
  let w' := worker_after nest_visitor [] [] obstacle_list (fun _ => 0) in
  WorkerAnt.state w' = STATE_SEEKING_FOOD /\
  Ant.direction (WorkerAnt.base w') =
    Ant.direction
      (Ant.steer (Ant.with_direction (WorkerAnt.base nest_visitor) (0 + 180))
         (get_angle_to (center (Ant.rect (WorkerAnt.base nest_visitor)))
                       (center (WorkerAnt.nest_rect nest_visitor)))).
Proof.
  intros w'.
  destruct (nest_arrival_transition nest_visitor [] [] (fun _ => 0)
              nest_visitor_consistent eq_refl nest_visitor_overlaps)
    as (Hs & Hd & _).
  split; [exact Hs | exact Hd].
Defined.

(* ================================================================== *)
(** * The seeking worker: choice of the target *)
(* ================================================================== *)

(** The scan returns the first marker of the group closer than 50. *)
Lemma smell_first (w : WorkerAnt.t) (pre post : list Pheromone.t)
    (p : Pheromone.t) :
  (forall q, In q pre -> ~ WorkerAnt.dist_to w (Pheromone.rect q) < 50) ->
  WorkerAnt.dist_to w (Pheromone.rect p) < 50 ->
  WorkerAnt.smell w (pre ++ p :: post) = Some p.
Proof.
  intros Hpre Hp. induction pre as [|q pre IH]; simpl.
  - destruct (Rlt_dec _ _); [reflexivity | contradiction].
  - destruct (Rlt_dec _ _) as [Hq | _].
    + exfalso. apply (Hpre q); [now left | exact Hq].
    + apply IH. intros r Hr. apply Hpre. now right.
Qed.

Lemma smell_none (w : WorkerAnt.t) (group : list Pheromone.t) :
  (forall q, In q group -> ~ WorkerAnt.dist_to w (Pheromone.rect q) < 50) ->
  WorkerAnt.smell w group = None.
Proof.
  intros Hall. induction group as [|q group IH]; simpl; [reflexivity|].
  destruct (Rlt_dec _ _) as [Hq | _].
  - exfalso. apply (Hall q); [now left | exact Hq].
  - apply IH. intros r Hr. apply Hall. now right.
Qed.

(** A marker returned by the scan is a member of the group, closer than
    50. *)
Lemma smell_some (w : WorkerAnt.t) (group : list Pheromone.t)
    (p : Pheromone.t) :
  WorkerAnt.smell w group = Some p ->
  In p group /\ WorkerAnt.dist_to w (Pheromone.rect p) < 50.
Proof.
  induction group as [|q group IH]; simpl; [discriminate|].
  destruct (Rlt_dec _ _) as [Hq | _].
  - intros [= ->]. split; [now left | exact Hq].
  - intros H. destruct (IH H). split; [now right | assumption].
Qed.

(** A marker closer than 50 in the group makes the scan succeed. *)
Lemma smell_finds (w : WorkerAnt.t) (group : list Pheromone.t)
    (p : Pheromone.t) :
  In p group -> WorkerAnt.dist_to w (Pheromone.rect p) < 50 ->
  exists q, WorkerAnt.smell w group = Some q.
Proof.
  intros Hin Hp. destruct (WorkerAnt.smell w group) as [q|] eqn:E.
  - now exists q.
  - exfalso. revert Hin E. induction group as [|r group IH]; simpl.
    + tauto.
    + destruct (Rlt_dec _ _) as [|Hr]; [discriminate|].
      intros [-> | Hin] E; [contradiction | now apply IH].
Qed.

(** [min_from] returns the first element with the smallest key. *)
Lemma min_from_first {S : Type} (key : S -> R) (l : list S) :
  forall (best m : S) (pre post : list S),
  best :: l = pre ++ m :: post ->
  (forall s, In s pre -> key m < key s) ->
  (forall s, In s post -> key m <= key s) ->
  WorkerAnt.min_from key best l = m.
Proof.
  induction l as [|s rest IH]; intros best m pre post Heq Hpre Hpost.
  - destruct pre as [|b [|c pre]]; simpl in Heq; try discriminate.
    injection Heq as ->. reflexivity.
  - simpl. destruct pre as [|b pre]; simpl in Heq.
    + injection Heq as Hb Hp. subst best post.
      destruct (Rlt_dec (key s) (key m)) as [Hlt | _].
      * exfalso. assert (key m <= key s) by (apply Hpost; now left). lra.
      * apply (IH m m [] rest); [reflexivity | easy|].
        intros r Hr. apply Hpost. now right.
    + injection Heq as Hb Hl. subst b.
      destruct pre as [|c pre]; simpl in Hl.
      * injection Hl as Hs Hr. subst s rest.
        destruct (Rlt_dec (key m) (key best)) as [_ | Hge].
        -- apply (IH m m [] post); [reflexivity | easy | exact Hpost].
        -- exfalso. apply Hge. apply Hpre. now left.
      * injection Hl as Hs Hr. subst s rest.
        set (b' := if Rlt_dec (key c) (key best) then c else best).
        apply (IH b' m (b' :: pre) post); [reflexivity | | exact Hpost].
        intros r [<- | Hr].
        -- unfold b'. destruct (Rlt_dec _ _); apply Hpre; simpl; tauto.
        -- apply Hpre. simpl. tauto.
Qed.

(** [see_food] on a group whose first closest pile is [f]. *)
Lemma see_food_first (w : WorkerAnt.t) (pre post : list Food.t)
    (f : Food.t) :
  (forall s, In s pre ->
     WorkerAnt.dist_to w (Food.rect f) < WorkerAnt.dist_to w (Food.rect s)) ->
  (forall s, In s post ->
     WorkerAnt.dist_to w (Food.rect f) <= WorkerAnt.dist_to w (Food.rect s)) ->
  WorkerAnt.see_food w (pre ++ f :: post)
  = if Rlt_dec (WorkerAnt.dist_to w (Food.rect f)) 100
    then Some (center (Food.rect f)) else None.
Proof.
  intros Hpre Hpost. unfold WorkerAnt.see_food.
  destruct (pre ++ f :: post) as [|f0 rest] eqn:E.
  - destruct pre; discriminate.
  - rewrite (min_from_first
               (fun f => WorkerAnt.dist_to w (Food.rect f))
               rest f0 f pre post (eq_sym E) Hpre Hpost).
    reflexivity.
Qed.

(** The target computed in the seeking state is [seek_target]. *)
Lemma decide_seeking (w : WorkerAnt.t) (food_group : list Food.t)
    (pheromone_group : list Pheromone.t) :
  WorkerAnt.state w = STATE_SEEKING_FOOD ->
  WorkerAnt.decide w food_group pheromone_group
  = (WorkerAnt.seek_target w food_group pheromone_group,
     fst (WorkerAnt.collect w food_group),
     snd (WorkerAnt.collect w food_group), pheromone_group).
Proof.
  intros Hst. unfold WorkerAnt.decide. rewrite Hst.
  destruct (WorkerAnt.collect w food_group). reflexivity.
Qed.

(** C5. Target selection of a seeking worker.  If some marker of the
    pheromone group is closer than 50, the target is the centre of the
    first such marker in group order, whatever the food; if none is, and
    the food group is not empty, the target is the centre of the first
    pile at the smallest distance when that distance is below 100, and
    there is no target otherwise; with an empty food group there is no
    target.  With a target the worker steers toward it and moves; with
    none it wanders and moves. *)
Theorem worker_target_selection (w : WorkerAnt.t) (food_group : list Food.t)
    (pheromone_group : list Pheromone.t) (obstacle_group : list Obstacle.t)
    (g : Rng) :
  WorkerAnt.state w = STATE_SEEKING_FOOD ->
  let near p := WorkerAnt.dist_to w (Pheromone.rect p) < 50 in
  let dist f := WorkerAnt.dist_to w (Food.rect f) in
  let target :=
    fst (fst (fst (WorkerAnt.decide w food_group pheromone_group))) in
  let w' := worker_after w food_group pheromone_group obstacle_group g in
  (forall pre p post,
     pheromone_group = pre ++ p :: post ->
     (forall q, In q pre -> ~ near q) -> near p ->
     target = Some (center (Pheromone.rect p))) /\
  ((forall q, In q pheromone_group -> ~ near q) ->
     (forall pre f post,
        food_group = pre ++ f :: post ->
        (forall s, In s pre -> dist f < dist s) ->
        (forall s, In s post -> dist f <= dist s) ->
        (dist f < 100 -> target = Some (center (Food.rect f))) /\
        (~ dist f < 100 -> target = None)) /\
     (food_group = [] -> target = None)) /\
  (forall tg, target = Some tg ->
     WorkerAnt.base w' =
       fst (Ant.move
              (Ant.steer (WorkerAnt.base w)
                 (get_angle_to (center (Ant.rect (WorkerAnt.base w))) tg))
              obstacle_group g)) /\
  (target = None ->
     WorkerAnt.base w' =
       fst (Ant.move (fst (Ant.wander (WorkerAnt.base w) g)) obstacle_group
                     (snd (Ant.wander (WorkerAnt.base w) g)))).
Proof.
  intros Hst near dist target w'.
  assert (Ht : target = WorkerAnt.seek_target w food_group pheromone_group).
  { unfold target. now rewrite decide_seeking. }
  assert (Hw : WorkerAnt.base w' =
               fst (Ant.move
                      (WorkerAnt.base
                         (fst (WorkerAnt.turn
                                 (fst (WorkerAnt.collect w food_group))
                                 target g)))
                      obstacle_group
                      (snd (WorkerAnt.turn
                              (fst (WorkerAnt.collect w food_group))
                              target g)))).
  { unfold w', worker_after, target. rewrite update_stages.
    rewrite decide_seeking by exact Hst. reflexivity. }
  destruct (collect_frame w food_group) as (Hbase & _).
  split; [|split; [|split]].
  - intros pre p post -> Hpre Hp. rewrite Ht. unfold WorkerAnt.seek_target.
    now rewrite (smell_first w pre post p Hpre Hp).
  - intros Hnone. rewrite Ht. unfold WorkerAnt.seek_target.
    rewrite (smell_none w pheromone_group Hnone). split.
    + intros pre f post -> Hpre Hpost.
      rewrite (see_food_first w pre post f Hpre Hpost).
      fold (dist f). destruct (Rlt_dec (dist f) 100); split; intros;
        (reflexivity || contradiction).
    + intros ->. reflexivity.
  - intros tg Htg. rewrite Hw, Htg. cbn [WorkerAnt.turn fst snd].
    cbn [WorkerAnt.with_base WorkerAnt.base]. now rewrite Hbase.
  - intros Hnone. rewrite Hw, Hnone. cbn [WorkerAnt.turn].
    rewrite Hbase.
    destruct (Ant.wander (WorkerAnt.base w) g). reflexivity.
Qed.

Lemma hypot_lt (dx dy r : R) :
  0 <= r -> dx * dx + dy * dy < r * r -> hypot dx dy < r.
Proof.
  intros Hr H. unfold hypot. rewrite <- (sqrt_square r Hr).
  apply sqrt_lt_1; nra.
Qed.

Lemma hypot_ge (dx dy r : R) :
  0 <= r -> r * r <= dx * dx + dy * dy -> ~ hypot dx dy < r.
Proof.
  intros Hr H. unfold hypot. rewrite <- (sqrt_square r Hr) at 1.
  apply Rle_not_lt, sqrt_le_1; nra.
Qed.

(** The selection at [seeker] on [trail]: the first marker is out of
    range, so the target is the second one, although the third is
    closer. *)
Lemma worker_target_selection_witness :
  WorkerAnt.state seeker = STATE_SEEKING_FOOD /\
  fst (fst (fst (WorkerAnt.decide seeker [] trail))) = Some (410, 300)%Z.
Proof.
  split; [reflexivity|].
  destruct (worker_target_selection seeker [] trail [] (fun _ => 0) eq_refl)
    as (Hfirst & _).
  apply (Hfirst [Pheromone.mk (mkRect 499 299 3 3) 200]
                (Pheromone.mk (mkRect 409 299 3 3) 100)
                [Pheromone.mk (mkRect 399 299 3 3) 255] eq_refl).
  - intros q [<- | []]. unfold WorkerAnt.dist_to.
    change (centerx (Pheromone.rect (Pheromone.mk (mkRect 499 299 3 3) 200)))
      with 500%Z.
    change (centery (Pheromone.rect (Pheromone.mk (mkRect 499 299 3 3) 200)))
      with 300%Z.
    cbn [seeker WorkerAnt.base Ant.x Ant.y].
    apply hypot_ge; lra.
  - unfold WorkerAnt.dist_to.
    change (centerx (Pheromone.rect (Pheromone.mk (mkRect 409 299 3 3) 100)))
      with 410%Z.
    change (centery (Pheromone.rect (Pheromone.mk (mkRect 409 299 3 3) 100)))
      with 300%Z.
    cbn [seeker WorkerAnt.base Ant.x Ant.y].
    apply hypot_lt; lra.
Defined.

(* ================================================================== *)
(** * The pheromone field *)
(* ================================================================== *)

Lemma group_update_app (l1 l2 : list Pheromone.t) :
  Pheromone.group_update (l1 ++ l2)
  = Pheromone.group_update l1 ++ Pheromone.group_update l2.
Proof.
  induction l1 as [|p l1 IH]; simpl; [reflexivity|].
  destruct (Pheromone.update p); simpl; now rewrite IH.
Qed.

Lemma decay_ticks_app (n : nat) (l1 l2 : list Pheromone.t) :
  decay_ticks n (l1 ++ l2) = decay_ticks n l1 ++ decay_ticks n l2.
Proof.
  unfold decay_ticks. induction n as [|n IH]; simpl; [reflexivity|].
  now rewrite IH, group_update_app.
Qed.

(** The life of one marker: it loses one unit of strength per call and
    is gone at the call that brings it to zero. *)
Lemma decay_ticks_single (n : nat) (r : Rect) (s : Z) :
  (0 < s)%Z ->
  decay_ticks n [Pheromone.mk r s]
  = if (Z.of_nat n <? s)%Z then [Pheromone.mk r (s - Z.of_nat n)] else [].
Proof.
  intros Hs. unfold decay_ticks. induction n as [|n IH].
  - simpl. destruct (Z.ltb_spec 0 s); [|lia].
    now rewrite Z.sub_0_r.
  - rewrite Nat.iter_succ, IH.
    destruct (Z.ltb_spec (Z.of_nat n) s);
      destruct (Z.ltb_spec (Z.of_nat (S n)) s); try lia.
    + cbn [Pheromone.group_update]. unfold Pheromone.update.
      cbn [Pheromone.strength Pheromone.rect].
      destruct (Z.leb_spec (s - Z.of_nat n - 1) 0); [lia|].
      do 2 f_equal. lia.
    + cbn [Pheromone.group_update]. unfold Pheromone.update.
      cbn [Pheromone.strength Pheromone.rect].
      destruct (Z.leb_spec (s - Z.of_nat n - 1) 0); [reflexivity | lia].
    + reflexivity.
Qed.

(** Every marker of a reachable group has a strength of [[1, 255]]. *)
Lemma field_reachable_strength (group : list Pheromone.t) :
  field_reachable group ->
  forall p, In p group -> (0 < Pheromone.strength p <= PHEROMONE_STRENGTH)%Z.
Proof.
  unfold PHEROMONE_STRENGTH.
  induction 1 as [|group x y _ IH | group _ IH]; intros p Hp.
  - destruct Hp.
  - apply in_app_or in Hp. destruct Hp as [Hp | [<- | []]].
    + now apply IH.
    + simpl. unfold PHEROMONE_STRENGTH. lia.
  - revert p Hp. induction group as [|q group IHg]; intros p Hp.
    + destruct Hp.
    + assert (Hq := IH q (or_introl eq_refl)).
      assert (Hrest : forall p, In p (Pheromone.group_update group) ->
                (0 < Pheromone.strength p <= 255)%Z).
      { apply IHg. intros r Hr. apply IH. now right. }
      cbn [Pheromone.group_update] in Hp. unfold Pheromone.update in Hp.
      cbn [Pheromone.strength Pheromone.rect] in Hp.
      destruct (Z.leb_spec (Pheromone.strength q - 1) 0).
      * now apply Hrest.
      * destruct Hp as [<- | Hp]; [simpl; lia | now apply Hrest].
Qed.

(** C8. Pheromone lifecycle.  A marker made by [Pheromone(x, y)], which
    is what a deposit appends to the group, has strength
    [PHEROMONE_STRENGTH] (255).  After [n] calls of the group update the
    marker is still in the group, at its place and with strength
    [255 - n], as long as [n < 255], and it is gone from the group after
    exactly 255 calls.  The scan of a seeking worker over a reachable
    group only returns members of the group, whose strength is positive. *)
Theorem pheromone_lifecycle :
  (forall x y, Pheromone.strength (Pheromone.init x y) = PHEROMONE_STRENGTH) /\
  PHEROMONE_STRENGTH = 255%Z /\
  (forall w group,
     (WorkerAnt.pheromone_cooldown w <= 0)%Z ->
     snd (WorkerAnt.drop_pheromone w group)
     = group ++ [Pheromone.init (Ant.x (WorkerAnt.base w))
                                (Ant.y (WorkerAnt.base w))]) /\
  (forall before after x y n,
     (n < 255)%nat ->
     decay_ticks n (before ++ Pheromone.init x y :: after)
     = decay_ticks n before
       ++ Pheromone.mk (Pheromone.rect (Pheromone.init x y))
                       (PHEROMONE_STRENGTH - Z.of_nat n)
       :: decay_ticks n after) /\
  (forall before after x y,
     decay_ticks 255 (before ++ Pheromone.init x y :: after)
     = decay_ticks 255 before ++ decay_ticks 255 after) /\
  (forall group, field_reachable group ->
     forall w p, WorkerAnt.smell w group = Some p ->
     In p group /\ (0 < Pheromone.strength p)%Z).
Proof.
  split; [reflexivity | split; [reflexivity|]].
  split; [|split; [|split]].
  - intros w group Hc.
    now apply (drop_pheromone_spec w group).
  - intros before after x y n Hn.
    change (before ++ Pheromone.init x y :: after)
      with (before ++ [Pheromone.init x y] ++ after).
    rewrite !decay_ticks_app. unfold Pheromone.init at 1.
    rewrite decay_ticks_single by (unfold PHEROMONE_STRENGTH; lia).
    unfold PHEROMONE_STRENGTH.
    destruct (Z.ltb_spec (Z.of_nat n) 255); [reflexivity | lia].
  - intros before after x y.
    change (before ++ Pheromone.init x y :: after)
      with (before ++ [Pheromone.init x y] ++ after).
    rewrite !decay_ticks_app. unfold Pheromone.init.
    rewrite decay_ticks_single by (unfold PHEROMONE_STRENGTH; lia).
    unfold PHEROMONE_STRENGTH.
    destruct (Z.ltb_spec (Z.of_nat 255) 255); [lia | reflexivity].
  - intros group Hreach w p Hsmell.
    destruct (smell_some w group p Hsmell) as [Hin _].
    split; [exact Hin|].
    now apply (field_reachable_strength group Hreach p).
Qed.

(* ================================================================== *)
(** * One pass of the game loop *)
(* ================================================================== *)

(** Updating a group of ants is updating a first part of it and then the
    rest, on the groups and the generator left by the first part. *)
Lemma ants_update_app (l1 l2 : list AntSprite) (food_group : list Food.t)
    (pheromone_group : list Pheromone.t) (obstacle_group : list Obstacle.t)
    (g : Rng) :
  let r1 := ants_update l1 food_group pheromone_group obstacle_group g in
  let r2 := ants_update l2 (food_after r1) (field_after r1) obstacle_group
                        (rng_after r1) in
  ants_update (l1 ++ l2) food_group pheromone_group obstacle_group g
  = (ants_after r1 ++ ants_after r2, food_after r2, field_after r2,
     rng_after r2).
Proof.
  cbv zeta. revert food_group pheromone_group g.
  induction l1 as [|a l1 IH]; intros F P g.
  - simpl. unfold ants_after, food_after, field_after, rng_after. simpl.
    now destruct (ants_update l2 F P obstacle_group g) as [[[? ?] ?] ?].
  - cbn [app ants_update].
    destruct (sprite_update a F P obstacle_group g) as [[[a' F1] P1] g1].
    rewrite IH.
    destruct (ants_update l1 F1 P1 obstacle_group g1) as [[[l1' F2] P2] g2].
    reflexivity.
Qed.

(** The update of one ant only appends to the pheromone group. *)
Lemma sprite_update_grows (a : AntSprite) (food_group : list Food.t)
    (pheromone_group : list Pheromone.t) (obstacle_group : list Obstacle.t)
    (g : Rng) :
  exists new,
    snd (fst (sprite_update a food_group pheromone_group obstacle_group g))
    = pheromone_group ++ new /\
    forall p, In p new -> Pheromone.strength p = PHEROMONE_STRENGTH.
Proof.
  destruct a as [w | s]; cbn [sprite_update].
  - pose proof (update_pheromones w food_group pheromone_group
                  obstacle_group g) as H.
    unfold pheromones_after in H.
    destruct (WorkerAnt.update w food_group pheromone_group obstacle_group g)
      as [[[w' F1] P1] g1].
    cbn [fst snd] in H |- *. rewrite H.
    destruct (WorkerAnt.state w);
      try (exists []; rewrite app_nil_r; split; [reflexivity | easy]).
    destruct (WorkerAnt.pheromone_cooldown w <=? 0)%Z.
    + eexists. split; [reflexivity|]. intros p [<- | []]. reflexivity.
    + exists []. rewrite app_nil_r. split; [reflexivity | easy].
  - destruct (SoldierAnt.update s obstacle_group g).
    exists []. cbn [fst snd]. rewrite app_nil_r. split; [reflexivity | easy].
Qed.

Lemma ants_update_grows (ants : list AntSprite) (food_group : list Food.t)
    (pheromone_group : list Pheromone.t) (obstacle_group : list Obstacle.t)
    (g : Rng) :
  exists new,
    field_after (ants_update ants food_group pheromone_group obstacle_group g)
    = pheromone_group ++ new /\
    forall p, In p new -> Pheromone.strength p = PHEROMONE_STRENGTH.
Proof.
  revert food_group pheromone_group g.
  induction ants as [|a ants IH]; intros F P g.
  - exists []. unfold field_after. simpl. rewrite app_nil_r. easy.
  - cbn [ants_update].
    destruct (sprite_update_grows a F P obstacle_group g) as (n1 & E1 & H1).
    destruct (sprite_update a F P obstacle_group g) as [[[a' F1] P1] g1].
    cbn [fst snd] in E1. subst P1.
    destruct (IH F1 (P ++ n1) g1) as (n2 & E2 & H2).
    destruct (ants_update ants F1 (P ++ n1) obstacle_group g1)
      as [[[l' F2] P2] g2].
    unfold field_after in E2 |- *. cbn [fst snd] in E2 |- *. subst P2.
    exists (n1 ++ n2). rewrite app_assoc. split; [reflexivity|].
    intros p Hp. apply in_app_or in Hp. destruct Hp; auto.
Qed.

(** The groups of a run are reachable groups: the updates of the ants
    deposit, the group update ages. *)
Lemma update_field_reachable (w : WorkerAnt.t) (food_group : list Food.t)
    (pheromone_group : list Pheromone.t) (obstacle_group : list Obstacle.t)
    (g : Rng) :
  field_reachable pheromone_group ->
  field_reachable
    (pheromones_after w food_group pheromone_group obstacle_group g).
Proof.
  intros H. rewrite update_pheromones.
  destruct (WorkerAnt.state w); try exact H.
  destruct (WorkerAnt.pheromone_cooldown w <=? 0)%Z; [|exact H].
  now apply field_deposit.
Qed.

Lemma ants_update_field_reachable (ants : list AntSprite)
    (food_group : list Food.t) (pheromone_group : list Pheromone.t)
    (obstacle_group : list Obstacle.t) (g : Rng) :
  field_reachable pheromone_group ->
  field_reachable
    (field_after
       (ants_update ants food_group pheromone_group obstacle_group g)).
Proof.
  revert food_group pheromone_group g.
  induction ants as [|a ants IH]; intros F P g HP; [exact HP|].
  cbn [ants_update].
  assert (H1 : field_reachable
                 (snd (fst (sprite_update a F P obstacle_group g)))).
  { destruct a as [w | s]; cbn [sprite_update].
    - pose proof (update_field_reachable w F P obstacle_group g HP) as H.
      unfold pheromones_after in H.
      now destruct (WorkerAnt.update w F P obstacle_group g)
        as [[[? ?] ?] ?].
    - now destruct (SoldierAnt.update s obstacle_group g). }
  destruct (sprite_update a F P obstacle_group g) as [[[a' F1] P1] g1].
  cbn [fst snd] in H1. specialize (IH F1 P1 g1 H1).
  destruct (ants_update ants F1 P1 obstacle_group g1) as [[[? ?] ?] ?].
  exact IH.
Qed.

Lemma frame_field_reachable (w : World) :
  field_reachable (pheromone_group w) ->
  field_reachable (pheromone_group (frame w)).
Proof.
  intros H. unfold frame.
  pose proof (ants_update_field_reachable (ant_group w) (food_group w)
                (pheromone_group w) (obstacle_group w) (rng w) H) as H1.
  destruct (ants_update _ _ _ _ _) as [[[? ?] ?] ?].
  apply field_decay. exact H1.
Qed.

(** The pheromone group of a pass is aged once, after the last ant. *)
Lemma frame_pheromones (w : World) :
  pheromone_group (frame w)
  = Pheromone.group_update
      (field_after (ants_update (ant_group w) (food_group w)
                                (pheromone_group w) (obstacle_group w)
                                (rng w))).
Proof.
  unfold frame.
  now destruct (ants_update _ _ _ _ _) as [[[? ?] ?] ?].
Qed.

(** A deposit stays in the group until the end of the pass over the
    ants. *)
Lemma deposit_visible (before between : list AntSprite) (a : WorkerAnt.t)
    (food_group : list Food.t) (pheromone_group : list Pheromone.t)
    (obstacle_group : list Obstacle.t) (g : Rng) :
  WorkerAnt.state a = STATE_RETURNING_TO_NEST ->
  (WorkerAnt.pheromone_cooldown a <= 0)%Z ->
  In (Pheromone.init (Ant.x (WorkerAnt.base a)) (Ant.y (WorkerAnt.base a)))
     (field_after
        (ants_update (before ++ Worker a :: between) food_group
                     pheromone_group obstacle_group g)).
Proof.
  intros Hst Hc. rewrite ants_update_app. unfold field_after at 1.
  cbn [fst snd].
  set (r1 := ants_update before food_group pheromone_group obstacle_group g).
  generalize (food_after r1) (field_after r1) (rng_after r1).
  intros F0 P0 g0. cbn [ants_update sprite_update].
  pose proof (update_pheromones a F0 P0 obstacle_group g0) as Hp.
  unfold pheromones_after in Hp. rewrite Hst in Hp.
  destruct (Z.leb_spec (WorkerAnt.pheromone_cooldown a) 0); [|lia].
  destruct (WorkerAnt.update a F0 P0 obstacle_group g0)
    as [[[a' F1] P1] g1].
  cbn [fst snd] in Hp. subst P1.
  destruct (ants_update_grows between F1
              (P0 ++ [Pheromone.init (Ant.x (WorkerAnt.base a))
                                     (Ant.y (WorkerAnt.base a))])
              obstacle_group g1) as (new & E & _).
  destruct (ants_update between F1 _ obstacle_group g1) as [[[l' F2] P2] g2].
  unfold field_after in E |- *. cbn [fst snd] in E |- *. subst P2.
  apply in_or_app. left. apply in_or_app. right. now left.
Qed.

(** C9. Same-tick visibility.  The ants of the group are updated one
    after the other in group order, each on the groups left by the ones
    before it.  When a returning worker [a] whose cooldown has run out
    is updated before a worker [b] in a pass, the marker [a] deposits,
    at full strength, is in the pheromone group that the update of [b]
    receives in that same pass; a seeking [b] closer than 50 to it finds
    a marker in its scan and takes a target from it.  The group is aged
    by the group update only after the whole pass over the ants. *)
Theorem same_tick_visibility (before : list AntSprite) (a : WorkerAnt.t)
    (between : list AntSprite) (b : WorkerAnt.t) (after : list AntSprite)
    (foods : list Food.t) (pheromones : list Pheromone.t)
    (obstacles : list Obstacle.t) (g : Rng) :
  WorkerAnt.state a = STATE_RETURNING_TO_NEST ->
  (WorkerAnt.pheromone_cooldown a <= 0)%Z ->
  let marker :=
    Pheromone.init (Ant.x (WorkerAnt.base a)) (Ant.y (WorkerAnt.base a)) in
  let r1 :=
    ants_update (before ++ Worker a :: between) foods pheromones obstacles
                g in
  let rb := WorkerAnt.update b (food_after r1) (field_after r1) obstacles
                             (rng_after r1) in
  let r2 := ants_update after (snd (fst (fst rb))) (snd (fst rb)) obstacles
                        (snd rb) in
  ants_update (before ++ Worker a :: between ++ Worker b :: after) foods
              pheromones obstacles g
  = (ants_after r1 ++ Worker (fst (fst (fst rb))) :: ants_after r2,
     food_after r2, field_after r2, rng_after r2) /\
  In marker (field_after r1) /\
  Pheromone.strength marker = PHEROMONE_STRENGTH /\
  (WorkerAnt.state b = STATE_SEEKING_FOOD ->
   WorkerAnt.dist_to b (Pheromone.rect marker) < 50 ->
   exists p,
     WorkerAnt.smell b (field_after r1) = Some p /\
     fst (fst (fst (WorkerAnt.decide b (food_after r1) (field_after r1))))
     = Some (center (Pheromone.rect p))) /\
  (forall w : World,
     pheromone_group (frame w)
     = Pheromone.group_update
         (field_after (ants_update (ant_group w) (food_group w)
                                   (pheromone_group w) (obstacle_group w)
                                   (rng w)))).
Proof.
  intros Hst Hc marker r1 rb r2.
  assert (Hin : In marker (field_after r1))
    by (apply deposit_visible; assumption).
  split; [|split; [exact Hin | split; [reflexivity | split]]].
  - change (before ++ Worker a :: between ++ Worker b :: after)
      with (before ++ (Worker a :: between) ++ Worker b :: after).
    rewrite app_assoc, ants_update_app. fold r1.
    cbn [ants_update sprite_update]. fold rb.
    destruct rb as [[[b' F1] P1] g1] eqn:Eb. cbn [fst snd] in r2 |- *.
    fold r2. unfold ants_after, food_after, field_after, rng_after.
    destruct r2 as [[[l' F2] P2] g2]. reflexivity.
  - intros Hsb Hnear.
    destruct (smell_finds b (field_after r1) marker Hin Hnear) as [p Hp].
    exists p. split; [exact Hp|].
    rewrite decide_seeking by exact Hsb. cbn [fst].
    unfold WorkerAnt.seek_target. now rewrite Hp.
  - exact frame_pheromones.
Qed.

(** The statement for the pass over [depositor] followed by [seeker]. *)
Lemma same_tick_visibility_witness :
  let r1 := ants_update [Worker depositor] [] [] obstacle_list (fun _ => 0) in
  WorkerAnt.state depositor = STATE_RETURNING_TO_NEST /\
  (WorkerAnt.pheromone_cooldown depositor <= 0)%Z /\
  In (Pheromone.init 430 300) (field_after r1).
Proof.
  intros r1.
  assert (Hc : (WorkerAnt.pheromone_cooldown depositor <= 0)%Z)
    by (simpl; lia).
  destruct (same_tick_visibility [] depositor [] seeker [] [] []
              obstacle_list (fun _ => 0) eq_refl Hc) as (_ & Hin & _).
  split; [reflexivity | split; [exact Hc | exact Hin]].
Defined.

(* ================================================================== *)
(** * Set-up *)
(* ================================================================== *)

Lemma fair_tail (g : Rng) : fair g -> fair (fun n => g (S n)).
Proof. intros H n. apply H. Qed.

(** The loop that creates the ants: one ant per iteration, a worker when
    the draw for its role is below the ratio. *)
Lemma create_ants_spec (cfg : Config) (n : nat) :
  forall g,
  length (fst (create_ants cfg n g)) = n /\
  (fair g -> 1 <= WORKER_RATIO cfg ->
     forall a, In a (fst (create_ants cfg n g)) -> is_worker a) /\
  (fair g -> WORKER_RATIO cfg <= 0 ->
     forall a, In a (fst (create_ants cfg n g)) -> is_soldier a).
Proof.
  induction n as [|n IH]; intros g.
  - simpl. repeat split; intros; (reflexivity || contradiction).
  - cbn [create_ants randint random uniform WorkerAnt.init SoldierAnt.init
         Ant.init].
    set (g4 := fun k => g (S (S (S (S k))))).
    assert (Hg4 : fair g -> fair g4) by (intros H k; apply H).
    destruct (IH g4) as (Hlen & Hwork & Hsold).
    destruct (Rlt_dec (g 2%nat) (WORKER_RATIO cfg)) as [Hlt | Hge];
      fold g4; destruct (create_ants cfg n g4) as [rest g'];
      cbn [fst snd length] in *.
    + split; [now rewrite Hlen|]. split.
      * intros Hg Hr a [<- | Ha]; [exact I | now apply Hwork; auto].
      * intros Hg Hr a Ha. specialize (Hg 2%nat). lra.
    + split; [now rewrite Hlen|]. split.
      * intros Hg Hr a Ha. specialize (Hg 2%nat). lra.
      * intros Hg Hr a [<- | Ha]; [exact I | now apply Hsold; auto].
Qed.

(** The loop that creates the food: one pile per iteration, each with
    the configured amount. *)
Lemma create_food_spec (cfg : Config) (n : nat) :
  forall g,
  length (fst (create_food cfg n g)) = n /\
  forall f, In f (fst (create_food cfg n g)) ->
            Food.amount f = FOOD_AMOUNT_PER_PILE cfg.
Proof.
  induction n as [|n IH]; intros g.
  - simpl. split; [reflexivity | contradiction].
  - cbn [create_food randint random].
    set (g2 := fun k => g (S (S k))).
    destruct (IH g2) as (Hlen & Hamount).
    destruct (create_food cfg n g2) as [rest g'].
    cbn [fst snd length] in *.
    split; [now rewrite Hlen|].
    intros f [<- | Hf]; [reflexivity | now apply Hamount].
Qed.

(** C3, as amended.  The set-up does no validation: for every
    configuration it constructs a simulation and raises nothing.  The
    ant group has [TOTAL_ANTS] members and the food group [FOOD_PILES]
    members, none when the count is negative; each pile holds
    [FOOD_AMOUNT_PER_PILE], negative or not; there is no pheromone and
    the obstacles are those of [main]; with a ratio of 1 or above every
    ant is a worker, with a ratio of 0 or below every ant is a soldier. *)
Theorem setup_constructs_for_every_config (cfg : Config) (g : Rng) :
  exists w,
    main_setup cfg g = Constructed w /\
    (forall msg, main_setup cfg g <> Raised msg) /\
    length (ant_group w) = Z.to_nat (TOTAL_ANTS cfg) /\
    length (food_group w) = Z.to_nat (FOOD_PILES cfg) /\
    ((TOTAL_ANTS cfg < 0)%Z -> ant_group w = []) /\
    ((FOOD_PILES cfg < 0)%Z -> food_group w = []) /\
    (forall f, In f (food_group w) ->
       Food.amount f = FOOD_AMOUNT_PER_PILE cfg) /\
    pheromone_group w = [] /\
    obstacle_group w = obstacle_list /\
    (fair g -> 1 <= WORKER_RATIO cfg ->
       forall a, In a (ant_group w) -> is_worker a) /\
    (fair g -> WORKER_RATIO cfg <= 0 ->
       forall a, In a (ant_group w) -> is_soldier a).
Proof.
  unfold main_setup.
  destruct (create_ants_spec cfg (Z.to_nat (TOTAL_ANTS cfg)) g)
    as (Hlen & Hwork & Hsold).
  destruct (create_ants cfg (Z.to_nat (TOTAL_ANTS cfg)) g) as [ants g1].
  destruct (create_food_spec cfg (Z.to_nat (FOOD_PILES cfg)) g1)
    as (Hflen & Hamount).
  destruct (create_food cfg (Z.to_nat (FOOD_PILES cfg)) g1) as [foods g2].
  cbn [fst snd] in *.
  eexists. split; [reflexivity|].
  cbn [ant_group food_group pheromone_group obstacle_group].
  split; [discriminate|].
  split; [exact Hlen | split; [exact Hflen|]].
  split.
  { intros Hneg.
    replace (Z.to_nat (TOTAL_ANTS cfg)) with 0%nat in Hlen by lia.
    now destruct ants. }
  split.
  { intros Hneg.
    replace (Z.to_nat (FOOD_PILES cfg)) with 0%nat in Hflen by lia.
    now destruct foods. }
  split; [exact Hamount|].
  split; [reflexivity | split; [reflexivity|]].
  split; assumption.
Qed.

(** C3 fails as stated: [bad_config] has a ratio above 1 and negative
    counts, and the set-up constructs a simulation from it, an empty
    one, instead of failing. *)
Lemma setup_validation_counterexample :
  invalid_config bad_config /\
  ~ (0 <= WORKER_RATIO bad_config <= 1) /\
  (TOTAL_ANTS bad_config < 0)%Z /\
  main_setup bad_config (fun _ => 0)
  = Constructed (mkWorld [] [] [] obstacle_list (fun _ => 0)) /\
  ~ (exists msg, main_setup bad_config (fun _ => 0) = Raised msg).
Proof.
  assert (Hr : ~ (0 <= WORKER_RATIO bad_config <= 1)) by (simpl; lra).
  split; [left; exact Hr|].
  split; [exact Hr|].
  split; [reflexivity|].
  split; [reflexivity|].
  intros [msg H]. discriminate H.
Qed.

(* ================================================================== *)
(** * Movement, continued: what [move] keeps *)
(* ================================================================== *)

Lemma advance_rect (self : Ant.t) :
  Ant.rect (Ant.advance self)
  = set_center (Ant.rect self)
      (round_away (Ant.x (Ant.advance self)),
       round_away (Ant.y (Ant.advance self))).
Proof. reflexivity. Qed.

Lemma set_center_twice (r : Rect) (c c' : Z * Z) :
  set_center (set_center r c) c' = set_center r c'.
Proof. reflexivity. Qed.

Lemma center_set_center (r : Rect) (c : Z * Z) : center (set_center r c) = c.
Proof.
  destruct c as [cx cy]. unfold center, centerx, centery, set_center.
  cbn [left top width height fst snd]. f_equal; lia.
Qed.

Lemma move_inside (self : Ant.t) (obstacle_group : list Obstacle.t)
    (g : Rng) :
  inside_screen self ->
  inside_screen (fst (Ant.move self obstacle_group g)).
Proof.
  intros [Hx Hy]. unfold Ant.move.
  set (a := Ant.advance self).
  set (b := Ant.boundary_check (Ant.x self) (Ant.y self) a).
  destruct (boundary_check_spec (Ant.x self) (Ant.y self) a)
    as (Bx & Kx & By & Ky & _).
  fold b in Bx, Kx, By, Ky.
  assert (Hb : inside_screen b).
  { split.
    - destruct (out_x_dec a) as [[H _] | [H _]].
      + now rewrite (Bx H).
      + rewrite (Kx H). unfold out_x in H. lra.
    - destruct (out_y_dec a) as [[H _] | [H _]].
      + now rewrite (By H).
      + rewrite (Ky H). unfold out_y in H. lra. }
  destruct (obstacle_check_spec (Ant.x self) (Ant.y self) b obstacle_group g)
    as [Hfree Hhit].
  destruct (spritecollide Obstacle.rect (Ant.rect b) obstacle_group) eqn:E.
  - now rewrite Hfree.
  - destruct Hhit as (Ex & Ey & _); [discriminate|].
    unfold inside_screen. now rewrite Ex, Ey.
Qed.

(** An ant inside the screen is inside the screen after [move],
    whatever the obstacles and the heading: a step that would leave
    through an edge is taken back on that axis, and a step into an
    obstacle is taken back altogether. *)
Theorem move_stays_inside (self : Ant.t) (obstacle_group : list Obstacle.t)
    (g : Rng) :
  inside_screen self ->
  inside_screen (fst (Ant.move self obstacle_group g)).
Proof. apply move_inside. Qed.

(** The statement at an ant next to the right edge, heading out. *)
Lemma move_stays_inside_witness :
  inside_screen
    (fst (Ant.move (Ant.mk (mkRect 797 298 5 5) 799 300 ANT_SPEED 0
                           ANT_TURN_SPEED)
                   obstacle_list (fun _ => 0))).
Proof.
  apply move_stays_inside.
  unfold inside_screen, SCREEN_WIDTH, SCREEN_HEIGHT. simpl. lra.
Defined.

(** After [move] the rectangle of the ant is centred on its rounded
    position, with the size it had; the speed and the turn rate are
    unchanged. *)
Theorem move_keeps_rect_in_step (self : Ant.t)
    (obstacle_group : list Obstacle.t) (g : Rng) :
  let r := fst (Ant.move self obstacle_group g) in
  center (Ant.rect r) = (round_away (Ant.x r), round_away (Ant.y r)) /\
  width (Ant.rect r) = width (Ant.rect self) /\
  height (Ant.rect r) = height (Ant.rect self) /\
  Ant.speed r = Ant.speed self /\
  Ant.turn_speed r = Ant.turn_speed self.
Proof.
  intros r. unfold r, Ant.move.
  set (a := Ant.advance self).
  set (b := Ant.boundary_check (Ant.x self) (Ant.y self) a).
  destruct (boundary_check_spec (Ant.x self) (Ant.y self) a)
    as (_ & _ & _ & _ & _ & _ & _ & _ & Bs & Bt & Br).
  fold b in Bs, Bt, Br.
  pose proof (advance_rect self) as Ar. fold a in Ar.
  rewrite Ar, set_center_twice in Br.
  destruct (advance_spec self) as (_ & _ & _ & As & At).
  fold a in As, At.
  destruct (obstacle_check_spec (Ant.x self) (Ant.y self) b obstacle_group g)
    as [Hfree Hhit].
  destruct (spritecollide Obstacle.rect (Ant.rect b) obstacle_group) eqn:E.
  - rewrite Hfree by reflexivity. cbn [fst].
    rewrite Br, center_set_center, Bs, Bt, As, At.
    repeat split; reflexivity.
  - destruct Hhit as (Ex & Ey & _ & Es & Et & Er); [discriminate|].
    rewrite Er, Br, set_center_twice, center_set_center, Ex, Ey, Es, Et,
      Bs, Bt, As, At.
    repeat split; reflexivity.
Qed.

(* ================================================================== *)
(** * Food *)
(* ================================================================== *)

(** A pile holding [a > 0] chunks survives [a - 1] calls of
    [take_chunk], losing one chunk at each, and kills itself at call
    [a]; a pile created with [a <= 0] kills itself at the first call.  A
    pile that survives a call holds at least one chunk. *)
Theorem food_depletion (r : Rect) (a : Z) (n : nat) :
  ((0 < a)%Z ->
     take_chunks n (Food.mk r a)
     = if (Z.of_nat n <? a)%Z then Some (Food.mk r (a - Z.of_nat n))
       else None) /\
  ((a <= 0)%Z -> (0 < n)%nat -> take_chunks n (Food.mk r a) = None) /\
  (forall f', Food.take_chunk (Food.mk r a) = Some f' ->
     (0 < Food.amount f')%Z /\ Food.rect f' = r).
Proof.
  split; [|split].
  - revert a. induction n as [|n IH]; intros a Ha.
    + simpl. destruct (Z.ltb_spec 0 a); [|lia]. now rewrite Z.sub_0_r.
    + cbn [take_chunks]. unfold Food.take_chunk.
      cbn [Food.amount Food.rect].
      destruct (Z.leb_spec (a - 1) 0).
      * destruct (Z.ltb_spec (Z.of_nat (S n)) a); [lia | reflexivity].
      * rewrite IH by lia.
        destruct (Z.ltb_spec (Z.of_nat n) (a - 1));
          destruct (Z.ltb_spec (Z.of_nat (S n)) a); try lia;
          [do 2 f_equal; lia | reflexivity].
  - intros Ha Hn. destruct n as [|n]; [lia|].
    cbn [take_chunks]. unfold Food.take_chunk. cbn [Food.amount Food.rect].
    destruct (Z.leb_spec (a - 1) 0); [reflexivity | lia].
  - intros f'. unfold Food.take_chunk. cbn [Food.amount Food.rect].
    destruct (Z.leb_spec (a - 1) 0); [discriminate|].
    intros [= <-]. simpl. split; [lia | reflexivity].
Qed.

(** [take_first_chunk] on a group of piles that all hold food. *)
Lemma take_first_chunk_spec (r : Rect) (group : list Food.t) :
  (forall f, In f group -> (0 < Food.amount f)%Z) ->
  (forall f, In f (WorkerAnt.take_first_chunk r group) ->
     (0 < Food.amount f)%Z) /\
  (length (WorkerAnt.take_first_chunk r group) <= length group)%nat /\
  (spritecollide Food.rect r group <> [] ->
     total_food (WorkerAnt.take_first_chunk r group)
     = (total_food group - 1)%Z) /\
  (spritecollide Food.rect r group = [] ->
     WorkerAnt.take_first_chunk r group = group).
Proof.
  induction group as [|f group IH]; intros Hpos.
  - simpl. repeat split; (easy || auto).
  - destruct IH as (IHpos & IHlen & IHhit & IHfree).
    { intros f' Hf'. apply Hpos. now right. }
    assert (Hf := Hpos f (or_introl eq_refl)).
    cbn [WorkerAnt.take_first_chunk spritecollide filter].
    destruct (colliderect r (Food.rect f)) eqn:Ec.
    + unfold Food.take_chunk. cbn [Food.amount Food.rect].
      destruct (Z.leb_spec (Food.amount f - 1) 0).
      * split; [intros f' Hf'; apply Hpos; now right|].
        split; [simpl; lia|].
        split; [intros _; unfold total_food; cbn [fold_right]; lia
               | discriminate].
      * split.
        { intros f' [<- | Hf']; [simpl; lia | apply Hpos; now right]. }
        split; [simpl; lia|].
        split; [intros _; unfold total_food;
                cbn [fold_right Food.amount]; lia
               | discriminate].
    + split.
      { intros f' [<- | Hf']; [exact Hf | now apply IHpos]. }
      split; [simpl; lia|].
      split.
      * intros Hhit. unfold spritecollide in IHhit.
        specialize (IHhit Hhit). unfold total_food in *.
        cbn [fold_right]. lia.
      * intros Hfree. f_equal. now apply IHfree.
Qed.

(** The state of the worker and the food group after one update. *)
Lemma update_state_food (w : WorkerAnt.t) (food_group : list Food.t)
    (pheromone_group : list Pheromone.t) (obstacle_group : list Obstacle.t)
    (g : Rng) :
  let r := WorkerAnt.update w food_group pheromone_group obstacle_group g in
  match WorkerAnt.state w with
  | STATE_SEEKING_FOOD =>
      match spritecollide Food.rect (Ant.rect (WorkerAnt.base w)) food_group
      with
      | [] =>
          WorkerAnt.state (fst (fst (fst r))) = STATE_SEEKING_FOOD /\
          snd (fst (fst r)) = food_group
      | _ :: _ =>
          WorkerAnt.state (fst (fst (fst r))) = STATE_RETURNING_TO_NEST /\
          snd (fst (fst r))
          = WorkerAnt.take_first_chunk (Ant.rect (WorkerAnt.base w))
                                       food_group
      end
  | STATE_RETURNING_TO_NEST =>
      WorkerAnt.state (fst (fst (fst r)))
      = (if colliderect (Ant.rect (WorkerAnt.base w)) (WorkerAnt.nest_rect w)
         then STATE_SEEKING_FOOD else STATE_RETURNING_TO_NEST) /\
      snd (fst (fst r)) = food_group
  | STATE_WANDERING =>
      WorkerAnt.state (fst (fst (fst r))) = STATE_WANDERING /\
      snd (fst (fst r)) = food_group
  end.
Proof.
  cbv zeta. rewrite update_stages. cbn [fst snd].
  cbn [WorkerAnt.with_base WorkerAnt.state].
  match goal with
  | |- context [WorkerAnt.turn ?a ?b ?c] =>
      destruct (turn_frame a b c) as (-> & _)
  end.
  unfold WorkerAnt.decide. destruct (WorkerAnt.state w) eqn:Hst.
  - unfold WorkerAnt.collect.
    destruct (spritecollide Food.rect (Ant.rect (WorkerAnt.base w))
                food_group);
      cbn [fst snd WorkerAnt.with_state WorkerAnt.state];
      split; (reflexivity || exact Hst).
  - destruct (WorkerAnt.drop_pheromone w pheromone_group) as [w1 ps] eqn:Ed.
    destruct (drop_pheromone_spec w pheromone_group) as (Eb & Es & En & _).
    rewrite Ed in Eb, Es, En. cbn [fst snd] in Eb, Es, En |- *.
    split; [|reflexivity].
    unfold WorkerAnt.arrive. rewrite Eb, En.
    destruct (colliderect _ _); cbn [WorkerAnt.with_base WorkerAnt.with_state
                                     WorkerAnt.state];
      [reflexivity | now rewrite Es].
  - cbn [fst snd]. split; [exact Hst | reflexivity].
Qed.

(** The worker state machine: a seeking worker becomes returning exactly
    when its rectangle overlaps a food pile at the start of its update,
    a returning worker becomes seeking exactly when its rectangle
    overlaps the nest, and nothing else (steering, wandering, moving,
    bouncing) changes the state. *)
Theorem worker_state_transitions (w : WorkerAnt.t) (foods : list Food.t)
    (pheromones : list Pheromone.t) (obstacles : list Obstacle.t) (g : Rng) :
  let w' := worker_after w foods pheromones obstacles g in
  (WorkerAnt.state w = STATE_SEEKING_FOOD ->
     (WorkerAnt.state w' = STATE_RETURNING_TO_NEST <->
      spritecollide Food.rect (Ant.rect (WorkerAnt.base w)) foods <> []) /\
     (WorkerAnt.state w' = STATE_SEEKING_FOOD <->
      spritecollide Food.rect (Ant.rect (WorkerAnt.base w)) foods = [])) /\
  (WorkerAnt.state w = STATE_RETURNING_TO_NEST ->
     (WorkerAnt.state w' = STATE_SEEKING_FOOD <->
      colliderect (Ant.rect (WorkerAnt.base w)) (WorkerAnt.nest_rect w)
      = true) /\
     (WorkerAnt.state w' = STATE_RETURNING_TO_NEST <->
      colliderect (Ant.rect (WorkerAnt.base w)) (WorkerAnt.nest_rect w)
      = false)) /\
  (WorkerAnt.state w <> STATE_WANDERING ->
     WorkerAnt.state w' <> STATE_WANDERING).
Proof.
  intros w'.
  pose proof (update_state_food w foods pheromones obstacles g) as H.
  cbv zeta in H. fold (worker_after w foods pheromones obstacles g) in H.
  fold w' in H.
  split; [|split].
  - intros Hst. rewrite Hst in H.
    destruct (spritecollide Food.rect (Ant.rect (WorkerAnt.base w)) foods);
      destruct H as [-> _]; repeat split; intros; congruence.
  - intros Hst. rewrite Hst in H. destruct H as [-> _].
    destruct (colliderect _ _); repeat split; intros; congruence.
  - intros Hst. destruct (WorkerAnt.state w); [| |congruence].
    + destruct (spritecollide Food.rect _ foods); destruct H as [-> _];
        discriminate.
    + destruct H as [-> _]. destruct (colliderect _ _); discriminate.
Qed.

(** Picking up food: the update of a worker never adds a pile or a
    chunk, and on a group of piles that all hold food it takes exactly
    one chunk when a seeking worker overlaps a pile and leaves the group
    as it is otherwise; the piles left all hold food. *)
Theorem pickup_takes_one_chunk (w : WorkerAnt.t) (foods : list Food.t)
    (pheromones : list Pheromone.t) (obstacles : list Obstacle.t) (g : Rng) :
  (forall f, In f foods -> (0 < Food.amount f)%Z) ->
  let foods' :=
    snd (fst (fst (WorkerAnt.update w foods pheromones obstacles g))) in
  let picks :=
    WorkerAnt.state w = STATE_SEEKING_FOOD /\
    spritecollide Food.rect (Ant.rect (WorkerAnt.base w)) foods <> [] in
  (picks -> total_food foods' = (total_food foods - 1)%Z) /\
  (~ picks -> foods' = foods) /\
  (length foods' <= length foods)%nat /\
  (forall f, In f foods' -> (0 < Food.amount f)%Z).
Proof.
  intros Hpos foods' picks.
  pose proof (update_state_food w foods pheromones obstacles g) as H.
  cbv zeta in H. fold foods' in H.
  destruct (take_first_chunk_spec (Ant.rect (WorkerAnt.base w)) foods Hpos)
    as (Tpos & Tlen & Thit & _).
  unfold picks.
  destruct (WorkerAnt.state w) eqn:Hst.
  - destruct (spritecollide Food.rect (Ant.rect (WorkerAnt.base w)) foods)
      eqn:E; destruct H as [_ ->].
    + repeat split; (tauto || auto).
    + split; [intros _; apply Thit; discriminate|].
      split; [intros Hn; exfalso; apply Hn; split; [reflexivity
                                                   | discriminate]|].
      split; assumption.
  - destruct H as [_ ->].
    repeat split; auto; intros [Hs _]; discriminate.
  - destruct H as [_ ->].
    repeat split; auto; intros [Hs _]; discriminate.
Qed.

(** The statement for a seeking worker standing on a pile of two
    chunks. *)
Lemma pickup_takes_one_chunk_witness :
  let foods := [Food.mk (mkRect 394 294 12 12) 2] in
  total_food
    (snd (fst (fst (WorkerAnt.update seeker foods [] obstacle_list
                                     (fun _ => 0)))))
  = 1%Z.
Proof.
  intros foods.
  assert (Hpos : forall f, In f foods -> (0 < Food.amount f)%Z).
  { intros f [<- | []]. simpl. lia. }
  destruct (pickup_takes_one_chunk seeker foods [] obstacle_list (fun _ => 0)
              Hpos) as (Hpick & _).
  apply Hpick. split; [reflexivity | vm_compute; discriminate].
Defined.

(* ================================================================== *)
(** * Pheromones, continued *)
(* ================================================================== *)

(** While the cooldown is positive, calls of [drop_pheromone] count it
    down and deposit nothing. *)
Lemma drop_times_countdown (k : nat) :
  forall (w : WorkerAnt.t) (group : list Pheromone.t),
  (Z.of_nat k <= WorkerAnt.pheromone_cooldown w)%Z ->
  drop_times k w group
  = (WorkerAnt.with_cooldown w
       (WorkerAnt.pheromone_cooldown w - Z.of_nat k), group).
Proof.
  induction k as [|k IH]; intros w group Hk.
  - simpl. rewrite Z.sub_0_r. now destruct w.
  - cbn [drop_times]. unfold WorkerAnt.drop_pheromone.
    destruct (Z.leb_spec (WorkerAnt.pheromone_cooldown w) 0); [lia|].
    rewrite IH by (simpl; lia).
    unfold WorkerAnt.with_cooldown. simpl. do 2 f_equal. lia.
Qed.

(** The deposit rhythm.  A worker whose cooldown is [c >= 0] deposits
    nothing during its next [c] calls of [drop_pheromone] and deposits
    one marker, at its position, at call [c + 1], which sets the
    cooldown to [PHEROMONE_DROP_RATE]: between two deposits of a
    returning worker there are [PHEROMONE_DROP_RATE] calls without one,
    so a deposit every [PHEROMONE_DROP_RATE + 1] updates. *)
Theorem deposit_rhythm (w : WorkerAnt.t) (group : list Pheromone.t)
    (c : nat) :
  WorkerAnt.pheromone_cooldown w = Z.of_nat c ->
  (forall k, (k <= c)%nat -> snd (drop_times k w group) = group) /\
  snd (drop_times (S c) w group)
  = group ++ [Pheromone.init (Ant.x (WorkerAnt.base w))
                             (Ant.y (WorkerAnt.base w))] /\
  WorkerAnt.pheromone_cooldown (fst (drop_times (S c) w group))
  = PHEROMONE_DROP_RATE.
Proof.
  intros Hc.
  split.
  - intros k Hk. rewrite drop_times_countdown by lia. reflexivity.
  - replace (S c) with (c + 1)%nat by lia.
    assert (Hsplit : forall a b w0 g0,
              drop_times (a + b) w0 g0
              = drop_times b (fst (drop_times a w0 g0))
                             (snd (drop_times a w0 g0))).
    { induction a as [|a IHa]; intros b w0 g0; [reflexivity|].
      cbn [Nat.add drop_times].
      destruct (WorkerAnt.drop_pheromone w0 g0). apply IHa. }
    rewrite Hsplit, (drop_times_countdown c w group) by lia.
    cbn [fst snd drop_times]. unfold WorkerAnt.drop_pheromone.
    cbn [WorkerAnt.with_cooldown WorkerAnt.pheromone_cooldown
         WorkerAnt.base].
    destruct (Z.leb_spec (WorkerAnt.pheromone_cooldown w - Z.of_nat c) 0);
      [|lia].
    split; reflexivity.
Qed.

(** The rhythm after a deposit: ten calls without a marker, then one. *)
Lemma deposit_rhythm_witness :
  let w := WorkerAnt.with_cooldown depositor PHEROMONE_DROP_RATE in
  snd (drop_times 10 w []) = [] /\
  snd (drop_times 11 w []) = [Pheromone.init 430 300].
Proof.
  intros w.
  destruct (deposit_rhythm w [] 10 eq_refl) as (Hnone & Hdrop & _).
  split; [apply Hnone; lia | exact Hdrop].
Defined.

(** A group whose markers all have a strength of at most [n] is empty
    after [n] group updates, if [n] is not zero. *)
Lemma decay_ticks_all (n : nat) (group : list Pheromone.t) :
  (0 < n)%nat ->
  (forall p, In p group -> (Pheromone.strength p <= Z.of_nat n)%Z) ->
  decay_ticks n group = [].
Proof.
  intros Hn. induction group as [|p group IH]; intros Hall.
  - unfold decay_ticks. clear. induction n; [reflexivity|].
    now rewrite Nat.iter_succ, IHn.
  - change (p :: group) with ([p] ++ group).
    rewrite decay_ticks_app, IH by (intros q Hq; apply Hall; now right).
    rewrite app_nil_r.
    assert (Hp := Hall p (or_introl eq_refl)).
    destruct p as [r s]. cbn [Pheromone.strength] in Hp.
    destruct (Z.lt_ge_cases 0 s) as [Hs | Hs].
    + rewrite decay_ticks_single by exact Hs.
      destruct (Z.ltb_spec (Z.of_nat n) s); [lia | reflexivity].
    + destruct n as [|n]; [lia|].
      unfold decay_ticks. rewrite Nat.iter_succ_r.
      cbn [Pheromone.group_update]. unfold Pheromone.update.
      cbn [Pheromone.strength Pheromone.rect].
      destruct (Z.leb_spec (s - 1) 0); [|lia].
      clear. induction n; [reflexivity|].
      now rewrite Nat.iter_succ, IHn.
Qed.

Lemma group_update_length (group : list Pheromone.t) :
  (length (Pheromone.group_update group) <= length group)%nat.
Proof.
  induction group as [|p group IH]; simpl; [lia|].
  destruct (Pheromone.update p); simpl; lia.
Qed.

(** Trails fade: the group update never adds a marker, and a group
    reachable in a run is empty after [PHEROMONE_STRENGTH] group updates
    without a deposit. *)
Theorem trail_fades (group : list Pheromone.t) :
  field_reachable group ->
  decay_ticks (Z.to_nat PHEROMONE_STRENGTH) group = [] /\
  forall n, (length (decay_ticks n group) <= length group)%nat.
Proof.
  intros Hreach. split.
  - apply decay_ticks_all; [unfold PHEROMONE_STRENGTH; lia|].
    intros p Hp.
    destruct (field_reachable_strength group Hreach p Hp) as [_ Hle].
    unfold PHEROMONE_STRENGTH in *. lia.
  - intros n. unfold decay_ticks. induction n as [|n IH]; [simpl; lia|].
    rewrite Nat.iter_succ.
    pose proof (group_update_length
                  (Nat.iter n Pheromone.group_update group)). lia.
Qed.

(** The statement for the group holding one fresh marker. *)
Lemma trail_fades_witness :
  decay_ticks (Z.to_nat PHEROMONE_STRENGTH) ([] ++ [Pheromone.init 430 300])
  = [].
Proof.
  apply (trail_fades ([] ++ [Pheromone.init 430 300])).
  apply field_deposit, field_empty.
Defined.

(* ================================================================== *)
(** * The seeking worker, continued: what a target can be *)
(* ================================================================== *)

(** [min_from] returns a member with the smallest key. *)
Lemma min_from_min {S : Type} (key : S -> R) (l : list S) :
  forall best,
  In (WorkerAnt.min_from key best l) (best :: l) /\
  forall s, In s (best :: l) -> key (WorkerAnt.min_from key best l) <= key s.
Proof.
  induction l as [|a l IH]; intros best.
  - simpl. split; [now left | intros s [<- | []]; lra].
  - cbn [WorkerAnt.min_from].
    destruct (IH (if Rlt_dec (key a) (key best) then a else best))
      as [Hin Hmin].
    split.
    + destruct Hin as [Hin | Hin]; [|now right; right].
      rewrite <- Hin. destruct (Rlt_dec _ _); simpl; tauto.
    + intros s Hs.
      assert (Hb : key (WorkerAnt.min_from key
                          (if Rlt_dec (key a) (key best) then a else best) l)
                   <= key (if Rlt_dec (key a) (key best) then a else best))
        by (apply Hmin; now left).
      destruct Hs as [<- | [<- | Hs]].
      * destruct (Rlt_dec (key a) (key best)); lra.
      * destruct (Rlt_dec (key a) (key best)); lra.
      * apply Hmin. now right.
Qed.

(** A seeking worker never targets what it cannot sense: its target is
    the centre of a marker of the group closer than 50, or, when no
    marker is closer than 50, the centre of a pile of the group that is
    closer than 100 and at least as close as every other pile. *)
Theorem target_is_sensed (w : WorkerAnt.t) (foods : list Food.t)
    (pheromones : list Pheromone.t) (tg : Z * Z) :
  WorkerAnt.seek_target w foods pheromones = Some tg ->
  (exists p, In p pheromones /\
             WorkerAnt.dist_to w (Pheromone.rect p) < 50 /\
             tg = center (Pheromone.rect p)) \/
  ((forall p, In p pheromones ->
      ~ WorkerAnt.dist_to w (Pheromone.rect p) < 50) /\
   exists f, In f foods /\
             WorkerAnt.dist_to w (Food.rect f) < 100 /\
             (forall f', In f' foods ->
                WorkerAnt.dist_to w (Food.rect f)
                <= WorkerAnt.dist_to w (Food.rect f')) /\
             tg = center (Food.rect f)).
Proof.
  unfold WorkerAnt.seek_target.
  destruct (WorkerAnt.smell w pheromones) as [p|] eqn:Es.
  - intros [= <-]. left. exists p.
    destruct (smell_some w pheromones p Es). tauto.
  - intros Hsee. right. split.
    + intros p Hp Hnear.
      destruct (smell_finds w pheromones p Hp Hnear) as [q Hq]. congruence.
    + unfold WorkerAnt.see_food in Hsee.
      destruct foods as [|f rest]; [discriminate|].
      destruct (min_from_min (fun f => WorkerAnt.dist_to w (Food.rect f))
                  rest f) as [Hin Hmin].
      destruct (Rlt_dec _ 100) as [Hlt | _]; [|discriminate].
      injection Hsee as <-.
      eexists. split; [exact Hin|]. split; [exact Hlt|].
      split; [exact Hmin | reflexivity].
Qed.

(** The statement at [seeker] on [trail]. *)
Lemma target_is_sensed_witness :
  exists tg,
    WorkerAnt.seek_target seeker [] trail = Some tg /\
    exists p, In p trail /\ tg = center (Pheromone.rect p).
Proof.
  destruct (WorkerAnt.seek_target seeker [] trail) as [tg|] eqn:E.
  - exists tg. split; [reflexivity|].
    destruct (target_is_sensed seeker [] trail tg E)
      as [(p & Hin & _ & Htg) | (_ & f & [] & _)].
    exists p. split; assumption.
  - exfalso. unfold WorkerAnt.seek_target in E.
    assert (Hnear : WorkerAnt.dist_to seeker (mkRect 399 299 3 3) < 50).
    { unfold WorkerAnt.dist_to.
      change (centerx (mkRect 399 299 3 3)) with 400%Z.
      change (centery (mkRect 399 299 3 3)) with 300%Z.
      cbn [seeker WorkerAnt.base Ant.x Ant.y]. apply hypot_lt; lra. }
    destruct (smell_finds seeker trail (Pheromone.mk (mkRect 399 299 3 3) 255))
      as [q Hq]; [simpl; tauto | exact Hnear|].
    rewrite Hq in E. discriminate.
Defined.

(* ================================================================== *)
(** * The run: what every pass of the game loop keeps *)
(* ================================================================== *)

(** Before the move, an update has only changed the heading of the ant. *)
Lemma decide_turn_frame (w : WorkerAnt.t) (food_group : list Food.t)
    (pheromone_group : list Pheromone.t) (g : Rng) :
  let d := WorkerAnt.decide w food_group pheromone_group in
  let t := WorkerAnt.turn (snd (fst (fst d))) (fst (fst (fst d))) g in
  let b := WorkerAnt.base (fst t) in
  Ant.x b = Ant.x (WorkerAnt.base w) /\
  Ant.y b = Ant.y (WorkerAnt.base w) /\
  Ant.rect b = Ant.rect (WorkerAnt.base w) /\
  Ant.speed b = Ant.speed (WorkerAnt.base w) /\
  Ant.turn_speed b = Ant.turn_speed (WorkerAnt.base w) /\
  WorkerAnt.nest_rect (fst t) = WorkerAnt.nest_rect w.
Proof.
  cbv zeta.
  assert (Hd : let w1 := snd (fst (fst (WorkerAnt.decide w food_group
                                          pheromone_group))) in
               Ant.x (WorkerAnt.base w1) = Ant.x (WorkerAnt.base w) /\
               Ant.y (WorkerAnt.base w1) = Ant.y (WorkerAnt.base w) /\
               Ant.rect (WorkerAnt.base w1) = Ant.rect (WorkerAnt.base w) /\
               Ant.speed (WorkerAnt.base w1) = Ant.speed (WorkerAnt.base w) /\
               Ant.turn_speed (WorkerAnt.base w1)
               = Ant.turn_speed (WorkerAnt.base w) /\
               WorkerAnt.nest_rect w1 = WorkerAnt.nest_rect w).
  { cbv zeta. unfold WorkerAnt.decide. destruct (WorkerAnt.state w).
    - destruct (collect_frame w food_group) as (Hb & Hn & _).
      destruct (WorkerAnt.collect w food_group). cbn [fst snd] in *.
      rewrite Hb, Hn. tauto.
    - destruct (drop_pheromone_spec w pheromone_group) as (Hb & _ & Hn & _).
      destruct (WorkerAnt.drop_pheromone w pheromone_group) as [w1 ps].
      cbn [fst snd] in *.
      unfold WorkerAnt.arrive. destruct (colliderect _ _);
        cbn [WorkerAnt.with_base WorkerAnt.with_state WorkerAnt.base
             WorkerAnt.nest_rect Ant.with_direction Ant.x Ant.y Ant.rect
             Ant.speed Ant.turn_speed];
        rewrite ?Hb, ?Hn; tauto.
    - cbn [fst snd]. tauto. }
  cbv zeta in Hd.
  set (w1 := snd (fst (fst (WorkerAnt.decide w food_group pheromone_group))))
    in *.
  destruct Hd as (Hx & Hy & Hr & Hs & Ht & Hn).
  destruct (fst (fst (fst (WorkerAnt.decide w food_group pheromone_group))))
    as [tg|]; cbn [WorkerAnt.turn fst].
  - cbn [WorkerAnt.with_base WorkerAnt.base WorkerAnt.nest_rect].
    destruct (steer_frame (WorkerAnt.base w1)
                (get_angle_to (center (Ant.rect (WorkerAnt.base w1))) tg))
      as (-> & -> & -> & -> & ->).
    tauto.
  - unfold Ant.wander, uniform, random.
    cbn [fst WorkerAnt.with_base WorkerAnt.base WorkerAnt.nest_rect
         Ant.with_direction Ant.x Ant.y Ant.rect Ant.speed Ant.turn_speed].
    tauto.
Qed.

(** One update keeps an ant in play, and keeps its role. *)
Lemma sprite_update_in_play (a : AntSprite) (food_group : list Food.t)
    (pheromone_group : list Pheromone.t) (obstacle_group : list Obstacle.t)
    (g : Rng) :
  let a' :=
    fst (fst (fst (sprite_update a food_group pheromone_group
                                 obstacle_group g))) in
  (ant_in_play a -> ant_in_play a') /\
  roles [a'] = roles [a].
Proof.
  cbv zeta. destruct a as [w | s]; cbn [sprite_update].
  - pose proof (update_stages w food_group pheromone_group obstacle_group g)
      as Hu. cbv zeta in Hu.
    destruct (decide_turn_frame w food_group pheromone_group g)
      as (Hx & Hy & Hr & Hs & Ht & _).
    cbv zeta in Hx, Hy, Hr, Hs, Ht.
    destruct (WorkerAnt.update w food_group pheromone_group obstacle_group g)
      as [[[w' F1] P1] g1].
    cbn [fst snd]. split; [|reflexivity].
    injection Hu as -> _ _ _.
    intros [Hin Hc]. cbn [ant_base] in *.
    cbn [WorkerAnt.with_base WorkerAnt.base].
    set (b := WorkerAnt.base _) in *.
    split.
    + apply move_inside. unfold inside_screen. now rewrite Hx, Hy.
    + apply move_consistent. unfold ant_consistent.
      rewrite Hx, Hy, Hr, Hs, Ht. exact Hc.
  - unfold SoldierAnt.update.
    destruct (Ant.wander (SoldierAnt.base s) g) as [b g1] eqn:Ew.
    destruct (Ant.move b obstacle_group g1) as [b' g2] eqn:Em.
    cbn [fst snd]. split; [|reflexivity].
    intros [Hin Hc]. cbn [ant_base SoldierAnt.base] in *.
    assert (Hb : inside_screen b /\ ant_consistent b).
    { unfold Ant.wander, uniform, random in Ew. injection Ew as <- _.
      split; [exact Hin | exact Hc]. }
    replace b' with (fst (Ant.move b obstacle_group g1))
      by (rewrite Em; reflexivity).
    split; [apply move_inside | apply move_consistent]; tauto.
Qed.

Lemma ants_update_in_play (ants : list AntSprite) :
  forall (food_group : list Food.t) (pheromone_group : list Pheromone.t)
         (obstacle_group : list Obstacle.t) (g : Rng),
  let ants' :=
    ants_after (ants_update ants food_group pheromone_group obstacle_group g)
  in
  ((forall a, In a ants -> ant_in_play a) ->
   forall a, In a ants' -> ant_in_play a) /\
  roles ants' = roles ants.
Proof.
  cbv zeta. induction ants as [|a ants IH]; intros F P O g.
  - split; [intros _ a [] | reflexivity].
  - cbn [ants_update].
    destruct (sprite_update_in_play a F P O g) as [Hplay Hrole].
    cbv zeta in Hplay, Hrole.
    destruct (sprite_update a F P O g) as [[[a' F1] P1] g1].
    cbn [fst snd] in Hplay, Hrole.
    destruct (IH F1 P1 O g1) as [IHplay IHrole].
    destruct (ants_update ants F1 P1 O g1) as [[[l' F2] P2] g2].
    unfold ants_after in *. cbn [fst snd] in *.
    split.
    + intros Hall b [<- | Hb].
      * apply Hplay, Hall. now left.
      * apply IHplay; [|exact Hb]. intros c Hc. apply Hall. now right.
    + unfold roles in *. cbn [map] in *. injection Hrole as Hrole.
      now rewrite Hrole, IHrole.
Qed.

Lemma frame_ants (w : World) :
  ant_group (frame w)
  = ants_after (ants_update (ant_group w) (food_group w) (pheromone_group w)
                            (obstacle_group w) (rng w)) /\
  obstacle_group (frame w) = obstacle_group w.
Proof.
  unfold frame.
  now destruct (ants_update _ _ _ _ _) as [[[? ?] ?] ?].
Qed.

Lemma run_keeps_colony_obstacles (n : nat) (w : World) :
  obstacle_group (run n w) = obstacle_group w.
Proof.
  induction n as [|n IH]; [reflexivity|].
  unfold run in *. rewrite Nat.iter_succ.
  destruct (frame_ants (Nat.iter n frame w)) as [_ ->]. exact IH.
Qed.

(** The colony is fixed: over any number of passes of the game loop the
    ant group keeps its members' roles in order, so no ant is created,
    removed, reordered or changes role, and the obstacles stay the
    same. *)
Theorem run_keeps_colony (n : nat) (w : World) :
  roles (ant_group (run n w)) = roles (ant_group w) /\
  length (ant_group (run n w)) = length (ant_group w) /\
  obstacle_group (run n w) = obstacle_group w.
Proof.
  assert (H : roles (ant_group (run n w)) = roles (ant_group w) /\
              obstacle_group (run n w) = obstacle_group w).
  { induction n as [|n [IHr IHo]]; [split; reflexivity|].
    unfold run in *. rewrite Nat.iter_succ.
    destruct (frame_ants (Nat.iter n frame w)) as [-> ->].
    split; [|exact IHo].
    rewrite <- IHr. apply ants_update_in_play. }
  destruct H as [Hr Ho]. split; [exact Hr | split; [|exact Ho]].
  apply (f_equal (@length bool)) in Hr. unfold roles in Hr.
  now rewrite !length_map in Hr.
Qed.

(** Ants stay on the screen: if every ant of a world is inside the
    screen with its rectangle in step with its position, the same holds
    after any number of passes of the game loop. *)
Theorem run_keeps_ants_in_play (n : nat) (w : World) :
  (forall a, In a (ant_group w) -> ant_in_play a) ->
  forall a, In a (ant_group (run n w)) -> ant_in_play a.
Proof.
  intros Hw. induction n as [|n IH]; [exact Hw|].
  unfold run in *. rewrite Nat.iter_succ.
  destruct (frame_ants (Nat.iter n frame w)) as [-> _].
  now apply ants_update_in_play.
Qed.

Lemma seeker_in_play : ant_in_play (Worker seeker).
Proof.
  split.
  - unfold inside_screen, SCREEN_WIDTH, SCREEN_HEIGHT. simpl. lra.
  - unfold ant_consistent, seeker, get_rect_center, set_center.
    cbn [ant_base WorkerAnt.base Ant.speed Ant.turn_speed Ant.rect Ant.x
         Ant.y fst snd width height].
    rewrite (round_away_IZR 400), (round_away_IZR 300).
    repeat split; reflexivity.
Qed.

(** The statement for three passes over a world with one worker. *)
Lemma run_keeps_ants_in_play_witness :
  Forall ant_in_play
    (ant_group (run 3 (mkWorld [Worker seeker] [] [] obstacle_list
                               (fun _ => 0)))).
Proof.
  apply Forall_forall. apply run_keeps_ants_in_play.
  intros a [<- | []]. exact seeker_in_play.
Defined.

(** One update and the food group. *)
Lemma sprite_update_food (a : AntSprite) (food_group : list Food.t)
    (pheromone_group : list Pheromone.t) (obstacle_group : list Obstacle.t)
    (g : Rng) :
  (forall f, In f food_group -> (0 < Food.amount f)%Z) ->
  let foods' :=
    snd (fst (fst (sprite_update a food_group pheromone_group
                                 obstacle_group g))) in
  (forall f, In f foods' -> (0 < Food.amount f)%Z) /\
  (total_food foods' <= total_food food_group)%Z /\
  (length foods' <= length food_group)%nat.
Proof.
  intros Hpos. cbv zeta. destruct a as [w | s]; cbn [sprite_update].
  - pose proof (update_state_food w food_group pheromone_group
                  obstacle_group g) as H. cbv zeta in H.
    destruct (take_first_chunk_spec (Ant.rect (WorkerAnt.base w)) food_group
                Hpos) as (Tpos & Tlen & Thit & _).
    destruct (WorkerAnt.update w food_group pheromone_group obstacle_group g)
      as [[[w' F1] P1] g1].
    cbn [fst snd] in *.
    destruct (WorkerAnt.state w).
    + destruct (spritecollide Food.rect (Ant.rect (WorkerAnt.base w))
                  food_group) eqn:E; destruct H as [_ ->].
      * repeat split; (assumption || lia).
      * split; [exact Tpos|]. split; [|exact Tlen].
        rewrite Thit by discriminate. lia.
    + destruct H as [_ ->]. repeat split; (assumption || lia).
    + destruct H as [_ ->]. repeat split; (assumption || lia).
  - destruct (SoldierAnt.update s obstacle_group g). cbn [fst snd].
    repeat split; (assumption || lia).
Qed.

Lemma ants_update_food (ants : list AntSprite) :
  forall (food_group : list Food.t) (pheromone_group : list Pheromone.t)
         (obstacle_group : list Obstacle.t) (g : Rng),
  (forall f, In f food_group -> (0 < Food.amount f)%Z) ->
  let foods' :=
    food_after (ants_update ants food_group pheromone_group obstacle_group g)
  in
  (forall f, In f foods' -> (0 < Food.amount f)%Z) /\
  (total_food foods' <= total_food food_group)%Z /\
  (length foods' <= length food_group)%nat.
Proof.
  cbv zeta. induction ants as [|a ants IH]; intros F P O g Hpos.
  - unfold food_after. simpl. repeat split; (assumption || lia).
  - cbn [ants_update].
    destruct (sprite_update_food a F P O g Hpos) as (H1 & H2 & H3).
    cbv zeta in H1, H2, H3.
    destruct (sprite_update a F P O g) as [[[a' F1] P1] g1].
    cbn [fst snd] in H1, H2, H3.
    destruct (IH F1 P1 O g1 H1) as (I1 & I2 & I3).
    destruct (ants_update ants F1 P1 O g1) as [[[l' F2] P2] g2].
    unfold food_after in *. cbn [fst snd] in *.
    split; [exact I1 | split; lia].
Qed.

Lemma frame_food (w : World) :
  food_group (frame w)
  = food_after (ants_update (ant_group w) (food_group w) (pheromone_group w)
                            (obstacle_group w) (rng w)).
Proof.
  unfold frame.
  now destruct (ants_update _ _ _ _ _) as [[[? ?] ?] ?].
Qed.

(** Food only goes down: in a world whose piles all hold food, after any
    number of passes of the game loop the piles left all hold food, and
    there are no more piles and no more food in total than before. *)
Theorem run_food_only_shrinks (n : nat) (w : World) :
  (forall f, In f (food_group w) -> (0 < Food.amount f)%Z) ->
  (forall f, In f (food_group (run n w)) -> (0 < Food.amount f)%Z) /\
  (total_food (food_group (run n w)) <= total_food (food_group w))%Z /\
  (length (food_group (run n w)) <= length (food_group w))%nat.
Proof.
  intros Hw. induction n as [|n (IH1 & IH2 & IH3)].
  - repeat split; (assumption || simpl; lia).
  - unfold run in *. rewrite Nat.iter_succ, frame_food.
    destruct (ants_update_food (ant_group (Nat.iter n frame w))
                (food_group (Nat.iter n frame w))
                (pheromone_group (Nat.iter n frame w))
                (obstacle_group (Nat.iter n frame w))
                (rng (Nat.iter n frame w)) IH1) as (H1 & H2 & H3).
    split; [exact H1 | split; lia].
Qed.

(** The statement for two passes over a world with [seeker] standing on
    a pile of two chunks. *)
Lemma run_food_only_shrinks_witness :
  let w := mkWorld [Worker seeker] [Food.mk (mkRect 394 294 12 12) 2] []
                   obstacle_list (fun _ => 0) in
  (total_food (food_group (run 2 w)) <= 2)%Z.
Proof.
  intros w.
  destruct (run_food_only_shrinks 2 w) as (_ & Ht & _).
  - intros f [<- | []]. simpl. lia.
  - exact Ht.
Defined.

(** Markers in a run: starting from a reachable pheromone group (the
    empty one of the set-up, for one), after any number of passes of the
    game loop every marker of the group has a strength in [[1, 255]]. *)
Theorem run_marker_strengths (n : nat) (w : World) :
  field_reachable (pheromone_group w) ->
  forall p, In p (pheromone_group (run n w)) ->
            (1 <= Pheromone.strength p <= PHEROMONE_STRENGTH)%Z.
Proof.
  intros Hw.
  assert (Hr : field_reachable (pheromone_group (run n w))).
  { induction n as [|n IH]; [exact Hw|].
    unfold run in *. rewrite Nat.iter_succ.
    now apply frame_field_reachable. }
  intros p Hp.
  pose proof (field_reachable_strength _ Hr p Hp). lia.
Qed.

(** The statement for a run that starts with [depositor] and no marker. *)
Lemma run_marker_strengths_witness :
  Forall (fun p => (1 <= Pheromone.strength p <= PHEROMONE_STRENGTH)%Z)
    (pheromone_group
       (run 4 (mkWorld [Worker depositor] [] [] obstacle_list
                       (fun _ => 0)))).
Proof.
  apply Forall_forall. apply run_marker_strengths. apply field_empty.
Defined.

(* ================================================================== *)
(** * Set-up, continued: the colony at the start *)
(* ================================================================== *)

Lemma random_spec (g : Rng) :
  fair g -> 0 <= fst (random g) < 1 /\ fair (snd (random g)).
Proof. intros H. split; [apply H | apply fair_tail, H]. Qed.

Lemma randint_spec (a b : Z) (g : Rng) :
  fair g -> (a <= b)%Z ->
  (a <= fst (randint a b g) <= b)%Z /\ fair (snd (randint a b g)).
Proof.
  intros Hg Hab. unfold randint, random. cbn [fst snd].
  split; [|apply fair_tail, Hg].
  specialize (Hg 0%nat).
  assert (Hn : 1 <= IZR (b - a + 1)) by (apply IZR_le; lia).
  destruct (base_Int_part (g 0%nat * IZR (b - a + 1))) as [Hlo Hhi].
  assert (H0 : (0 <= Int_part (g 0%nat * IZR (b - a + 1)))%Z).
  { assert (0 <= g 0%nat * IZR (b - a + 1)) by nra.
    assert (-1 < Int_part (g 0%nat * IZR (b - a + 1)))%Z
      by (apply lt_IZR; lra).
    lia. }
  assert (H1 : (Int_part (g 0%nat * IZR (b - a + 1)) < b - a + 1)%Z).
  { apply lt_IZR.
    assert (g 0%nat * IZR (b - a + 1) < IZR (b - a + 1)) by nra. lra. }
  lia.
Qed.

Lemma ant_init_spec (ix iy : Z) (g : Rng) :
  fair g ->
  let a := fst (Ant.init ix iy g) in
  ant_consistent a /\ Ant.x a = IZR ix /\ Ant.y a = IZR iy /\
  normalized (Ant.direction a) /\ fair (snd (Ant.init ix iy g)).
Proof.
  intros Hg. cbv zeta. split; [apply init_consistent|].
  unfold Ant.init, uniform, random. cbn [fst snd Ant.x Ant.y Ant.direction].
  split; [reflexivity | split; [reflexivity|]].
  split; [|apply fair_tail, Hg].
  specialize (Hg 0%nat). unfold normalized. lra.
Qed.

Lemma create_ants_fresh (cfg : Config) (n : nat) :
  forall g, fair g ->
  (forall a, In a (fst (create_ants cfg n g)) -> fresh_ant a) /\
  fair (snd (create_ants cfg n g)).
Proof.
  induction n as [|n IH]; intros g Hg.
  - split; [intros a [] | exact Hg].
  - cbn [create_ants].
    destruct (randint_spec (-10) 10 g Hg ltac:(lia)) as [Hdx Hg1].
    destruct (randint (-10) 10 g) as [dx g1]. cbn [fst snd] in Hdx, Hg1.
    destruct (randint_spec (-10) 10 g1 Hg1 ltac:(lia)) as [Hdy Hg2].
    destruct (randint (-10) 10 g1) as [dy g2]. cbn [fst snd] in Hdy, Hg2.
    destruct (random_spec g2 Hg2) as [_ Hg3].
    destruct (random g2) as [u g3]. cbn [fst snd] in Hg3.
    change (centerx main_nest_rect) with 400%Z.
    change (centery main_nest_rect) with 300%Z.
    destruct (ant_init_spec (400 + dx) (300 + dy) g3 Hg3)
      as (Hc & Hx & Hy & Hd & Hg4).
    cbv zeta in Hc, Hx, Hy, Hd.
    assert (Hxr : 390 <= IZR (400 + dx) <= 410)
      by (split; apply IZR_le; lia).
    assert (Hyr : 290 <= IZR (300 + dy) <= 310)
      by (split; apply IZR_le; lia).
    unfold WorkerAnt.init, SoldierAnt.init.
    destruct (Ant.init (400 + dx) (300 + dy) g3) as [b g4].
    cbn [fst snd] in Hc, Hx, Hy, Hd, Hg4.
    destruct (IH g4 Hg4) as [IHf IHg].
    destruct (Rlt_dec u (WORKER_RATIO cfg));
      destruct (create_ants cfg n g4) as [rest g5];
      cbn [fst snd] in *; (split; [|exact IHg]);
      (intros a [<- | Ha]; [|now apply IHf]);
      unfold fresh_ant; cbn [ant_base WorkerAnt.base SoldierAnt.base
                             WorkerAnt.state WorkerAnt.pheromone_cooldown
                             WorkerAnt.nest_rect SoldierAnt.state];
      rewrite Hx, Hy; tauto.
Qed.

Lemma create_food_fresh (cfg : Config) (n : nat) :
  forall g, fair g ->
  forall f, In f (fst (create_food cfg n g)) -> fresh_food cfg f.
Proof.
  induction n as [|n IH]; intros g Hg; [intros f []|].
  cbn [create_food].
  destruct (randint_spec 20 (SCREEN_WIDTH - 20) g Hg
              ltac:(unfold SCREEN_WIDTH; lia)) as [Hfx Hg1].
  destruct (randint 20 (SCREEN_WIDTH - 20) g) as [fx g1].
  cbn [fst snd] in Hfx, Hg1.
  destruct (randint_spec 20 (SCREEN_HEIGHT - 20) g1 Hg1
              ltac:(unfold SCREEN_HEIGHT; lia)) as [Hfy Hg2].
  destruct (randint 20 (SCREEN_HEIGHT - 20) g1) as [fy g2].
  cbn [fst snd] in Hfy, Hg2.
  specialize (IH g2 Hg2).
  destruct (create_food cfg n g2) as [rest g3]. cbn [fst snd] in *.
  intros f [<- | Hf]; [|now apply IH].
  unfold fresh_food, Food.init, get_rect_center. cbn [Food.rect Food.amount].
  rewrite (round_away_IZR fx), (round_away_IZR fy).
  change (centerx (set_center (mkRect 0 0 12 12) (fx, fy)))
    with (fx - 12 / 2 + 12 / 2)%Z.
  change (centery (set_center (mkRect 0 0 12 12) (fx, fy)))
    with (fy - 12 / 2 + 12 / 2)%Z.
  change (12 / 2)%Z with 6%Z.
  cbn [set_center width height].
  repeat split; (lia || reflexivity).
Qed.

(** The colony at the start.  With draws in [[0, 1)], every ant the
    set-up creates is within ten pixels of the centre of the nest on
    each axis, so inside the screen, with its rectangle in step with its
    position and a heading in [[0, 360)]; every worker is seeking, with
    no cooldown; every pile is centred at least twenty pixels from the
    edges of the screen and holds the configured amount. *)
Theorem setup_colony_is_fresh (cfg : Config) (g : Rng) (w : World) :
  fair g ->
  main_setup cfg g = Constructed w ->
  (forall a, In a (ant_group w) -> fresh_ant a /\ ant_in_play a) /\
  (forall f, In f (food_group w) -> fresh_food cfg f).
Proof.
  intros Hg. unfold main_setup.
  destruct (create_ants_fresh cfg (Z.to_nat (TOTAL_ANTS cfg)) g Hg)
    as [Hants Hg1].
  destruct (create_ants cfg (Z.to_nat (TOTAL_ANTS cfg)) g) as [ants g1].
  pose proof (create_food_fresh cfg (Z.to_nat (FOOD_PILES cfg)) g1 Hg1)
    as Hfood.
  destruct (create_food cfg (Z.to_nat (FOOD_PILES cfg)) g1) as [foods g2].
  cbn [fst snd] in *.
  intros [= <-]. cbn [ant_group food_group].
  split; [|exact Hfood].
  intros a Ha. specialize (Hants a Ha). split; [exact Hants|].
  destruct Hants as (Hc & Hx & Hy & _).
  split; [|exact Hc].
  unfold inside_screen, SCREEN_WIDTH, SCREEN_HEIGHT. lra.
Qed.

(** The statement for the set-up of the script with every draw at 0. *)
Lemma setup_colony_is_fresh_witness :
  exists w,
    main_setup script_config (fun _ => 0) = Constructed w /\
    Forall (fun a => fresh_ant a /\ ant_in_play a) (ant_group w) /\
    Forall (fresh_food script_config) (food_group w).
Proof.
  destruct (main_setup script_config (fun _ => 0)) as [w | msg] eqn:E.
  - exists w. split; [reflexivity|].
    rewrite !Forall_forall.
    exact (setup_colony_is_fresh script_config (fun _ => 0) w fair_zero E).
  - exfalso. unfold main_setup in E.
    destruct (create_ants _ _ _) as [ants g1].
    destruct (create_food _ _ _) as [foods g2]. discriminate E.
Defined.

(* ================================================================== *)
(** * Obstacles are never entered *)
(* ================================================================== *)

Lemma move_clear (self : Ant.t) (obstacle_group : list Obstacle.t)
    (g : Rng) :
  clear_of obstacle_group self ->
  clear_of obstacle_group (fst (Ant.move self obstacle_group g)).
Proof.
  intros [Hc Hfree].
  split; [now apply move_consistent|].
  unfold Ant.move.
  set (b := Ant.boundary_check (Ant.x self) (Ant.y self) (Ant.advance self)).
  assert (Hb : ant_consistent b)
    by (apply boundary_check_consistent, advance_consistent, Hc).
  destruct (obstacle_check_spec (Ant.x self) (Ant.y self) b obstacle_group g)
    as [Hno Hhit].
  destruct (spritecollide Obstacle.rect (Ant.rect b) obstacle_group) eqn:E.
  - rewrite Hno by reflexivity. exact E.
  - destruct Hhit as (Ex & Ey & _ & _ & _ & Er); [discriminate|].
    rewrite Er, (consistent_rect b Hb), (consistent_rect self Hc) in *.
    exact Hfree.
Qed.

(** No tunnelling into obstacles: an ant whose rectangle touches no
    obstacle before [move] touches none after it, whatever its heading:
    a step that would overlap an obstacle is taken back. *)
Theorem move_never_enters_obstacle (self : Ant.t)
    (obstacle_group : list Obstacle.t) (g : Rng) :
  ant_consistent self ->
  spritecollide Obstacle.rect (Ant.rect self) obstacle_group = [] ->
  spritecollide Obstacle.rect
    (Ant.rect (fst (Ant.move self obstacle_group g))) obstacle_group = [].
Proof.
  intros Hc Hfree.
  now apply (move_clear self obstacle_group g (conj Hc Hfree)).
Qed.

(** The statement at an ant one step from the left wall obstacle,
    heading into it. *)
Lemma move_never_enters_obstacle_witness :
  spritecollide Obstacle.rect
    (Ant.rect
       (fst (Ant.move (Ant.mk (get_rect_center 5 5 97 300) 97 300 ANT_SPEED 0
                              ANT_TURN_SPEED)
                      obstacle_list (fun _ => 0))))
    obstacle_list = [].
Proof.
  apply move_never_enters_obstacle.
  - unfold ant_consistent. simpl. tauto.
  - unfold get_rect_center.
    rewrite (round_away_IZR 97), (round_away_IZR 300).
    vm_compute. reflexivity.
Defined.

Lemma sprite_update_clear (a : AntSprite) (food_group : list Food.t)
    (pheromone_group : list Pheromone.t) (obstacle_group : list Obstacle.t)
    (g : Rng) :
  clear_of obstacle_group (ant_base a) ->
  clear_of obstacle_group
    (ant_base (fst (fst (fst (sprite_update a food_group pheromone_group
                                            obstacle_group g))))).
Proof.
  intros [Hc Hfree]. destruct a as [w | s]; cbn [sprite_update].
  - pose proof (update_stages w food_group pheromone_group obstacle_group g)
      as Hu. cbv zeta in Hu.
    destruct (decide_turn_frame w food_group pheromone_group g)
      as (Hx & Hy & Hr & Hs & Ht & _).
    cbv zeta in Hx, Hy, Hr, Hs, Ht.
    destruct (WorkerAnt.update w food_group pheromone_group obstacle_group g)
      as [[[w' F1] P1] g1].
    cbn [fst snd]. injection Hu as -> _ _ _.
    cbn [ant_base WorkerAnt.with_base WorkerAnt.base] in *.
    apply move_clear. split.
    + unfold ant_consistent. rewrite Hx, Hy, Hr, Hs, Ht. exact Hc.
    + rewrite Hr. exact Hfree.
  - unfold SoldierAnt.update.
    destruct (Ant.wander (SoldierAnt.base s) g) as [b g1] eqn:Ew.
    destruct (Ant.move b obstacle_group g1) as [b' g2] eqn:Em.
    cbn [fst snd ant_base SoldierAnt.base] in *.
    replace b' with (fst (Ant.move b obstacle_group g1))
      by (rewrite Em; reflexivity).
    apply move_clear.
    unfold Ant.wander, uniform, random in Ew. injection Ew as <- _.
    split; [exact Hc | exact Hfree].
Qed.

Lemma ants_update_clear (ants : list AntSprite) :
  forall (food_group : list Food.t) (pheromone_group : list Pheromone.t)
         (obstacle_group : list Obstacle.t) (g : Rng),
  (forall a, In a ants -> clear_of obstacle_group (ant_base a)) ->
  forall a,
    In a (ants_after (ants_update ants food_group pheromone_group
                                  obstacle_group g)) ->
    clear_of obstacle_group (ant_base a).
Proof.
  induction ants as [|a ants IH]; intros F P O g Hall; [intros b []|].
  cbn [ants_update].
  pose proof (sprite_update_clear a F P O g (Hall a (or_introl eq_refl)))
    as H1.
  destruct (sprite_update a F P O g) as [[[a' F1] P1] g1].
  cbn [fst snd] in H1.
  assert (IH' := IH F1 P1 O g1 (fun c Hc => Hall c (or_intror Hc))).
  destruct (ants_update ants F1 P1 O g1) as [[[l' F2] P2] g2].
  unfold ants_after in *. cbn [fst snd] in *.
  intros b [<- | Hb]; [exact H1 | now apply IH'].
Qed.

(** Over a run no ant ever stands on an obstacle: if no ant of a world
    touches an obstacle of the world, none does after any number of
    passes of the game loop. *)
Theorem run_never_enters_obstacle (n : nat) (w : World) :
  (forall a, In a (ant_group w) -> clear_of (obstacle_group w) (ant_base a)) ->
  forall a, In a (ant_group (run n w)) ->
            clear_of (obstacle_group w) (ant_base a).
Proof.
  intros Hw. induction n as [|n IH]; [exact Hw|].
  pose proof (run_keeps_colony_obstacles n w) as Ho.
  unfold run in *. rewrite Nat.iter_succ.
  destruct (frame_ants (Nat.iter n frame w)) as [-> _].
  rewrite <- Ho. apply ants_update_clear. rewrite Ho. exact IH.
Qed.

(** The statement for three passes over a world with one worker at the
    nest and the obstacles of [main]. *)
Lemma run_never_enters_obstacle_witness :
  Forall (fun a => clear_of obstacle_list (ant_base a))
    (ant_group (run 3 (mkWorld [Worker seeker] [] [] obstacle_list
                               (fun _ => 0)))).
Proof.
  apply Forall_forall.
  apply (run_never_enters_obstacle 3
           (mkWorld [Worker seeker] [] [] obstacle_list (fun _ => 0))).
  intros a [<- | []]. split.
  - apply seeker_in_play.
  - vm_compute. reflexivity.
Defined.
